(** * url_downloader.py: the resumable download engine of [URLDownloader_v2]

    A shallow embedding of [src/url_downloader.py].  Python [str] values are
    [string]s, Python [int]s are [Z], [collections.Counter] is a
    [gmap string Z], the object [self] is a record and everything outside the
    object (the log file, the data files, [thread_local], the output
    streams) is a record [World].  Code that can raise runs in a small
    state-and-exception monad.

    What is taken from the libraries the code calls, and how:
    - [os.path] is posixpath ([Text.basename], [Text.join]);
    - a file opened with ["r"] is read in text mode with universal newlines
      ([Text.readlines]), a file opened with ["a"] is made if it is missing;
    - [session.get] is a value of [GetResult] given to each call: a response
      with its truth value, or an exception;
    - [ThreadPoolExecutor] makes new threads, runs the calls of [map] in the
      order of its arguments, keeps an exception in the future of its call,
      waits for all calls at the end of the [with] block, and raises
      [ValueError] when [max_workers <= 0];
    - [urlparse] and the order of [list(set(...))] are parameters of the
      constructor;
    - [assert] is checked (the interpreter does not run with [-O]);
    - writing a data file does not fail.
    A call of [download_site] is taken as one step: the updates of
    [self.url_cnter] by different threads do not interleave. *)

From Stdlib Require Import ZArith Ascii String List.
From stdpp Require Import base option list gmap gmultiset strings pretty.

Local Open Scope string_scope.
Local Open Scope list_scope.
Local Open Scope Z_scope.

(** ** Text: what the code does with [str] values *)

Module Text.

Definition TAB : ascii := "009"%char.
Definition LF : ascii := "010"%char.
Definition CR : ascii := "013"%char.

Definition tab : string := String TAB EmptyString.
Definition nl : string := String LF EmptyString.

(** [needle in hay]. *)
Fixpoint contains (needle hay : string) : bool :=
  String.prefix needle hay
  || match hay with
     | EmptyString => false
     | String _ hay' => contains needle hay'
     end.

(** [line.split("\t")[0]]: the text in front of the first tab. *)
Fixpoint split_tab_head (line : string) : string :=
  match line with
  | EmptyString => EmptyString
  | String c rest =>
      if Ascii.eqb c TAB then EmptyString else String c (split_tab_head rest)
  end.

(** [for line in f] on a file opened with [open(path, "r")]: text mode with
    universal newlines, every line keeps its terminator and the terminators
    LF, CR and CR LF are all read as LF. *)
Fixpoint readlines_from (cur : string) (s : string) : list string :=
  match s with
  | EmptyString => if decide (cur = EmptyString) then [] else [cur]
  | String c s' =>
      if Ascii.eqb c LF then (cur +:+ nl) :: readlines_from EmptyString s'
      else if Ascii.eqb c CR then
        match s' with
        | String c' s'' =>
            if Ascii.eqb c' LF
            then (cur +:+ nl) :: readlines_from EmptyString s''
            else (cur +:+ nl) :: readlines_from EmptyString s'
        | EmptyString => [cur +:+ nl]
        end
      else readlines_from (cur +:+ String c EmptyString) s'
  end.

Definition readlines (s : string) : list string := readlines_from EmptyString s.

(** [os.path.basename] of posixpath: the text behind the last slash. *)
Fixpoint basename (p : string) : string :=
  match p with
  | EmptyString => EmptyString
  | String c rest =>
      if contains "/" rest then basename rest
      else if Ascii.eqb c "/"%char then rest else p
  end.

(** One step of [os.path.join] of posixpath: [path] joined with [b]. *)
Definition join2 (path b : string) : string :=
  if String.prefix "/" b then b
  else if decide (path = EmptyString) then path +:+ b
  else if String.prefix "/" (String.rev path) then path +:+ b
  else path +:+ "/" +:+ b.

Definition join (a : string) (ps : list string) : string := foldl join2 a ps.

End Text.

(** ** [collections.Counter] *)

Module Counter.

(** [Counter(iterable)]: every element adds one to its count. *)
Definition add (c : gmap string Z) (k : string) : gmap string Z :=
  <[k := default 0 (c !! k) + 1]> c.

Definition of_list (l : list string) : gmap string Z := foldl add ∅ l.

End Counter.

(** ** Reconciliation of the pending targets against the log *)

(** A target is a URL with its destination path; the code keeps the two in
    the parallel lists [url_list] and [output_path_list] and walks them
    with [zip]. *)
Definition target : Type := string * string.

(** [[line.split("\t")[0] for line in f if "batch above" not in line]] *)
Definition downloaded_urls (log_text : string) : list string :=
  Text.split_tab_head <$>
    filter (λ line, Text.contains "batch above" line = false)
           (Text.readlines log_text).

(** The body of the [for url, output_path in zip(...)] loop of
    [update_downloading_status], on the pair of its two mutable locals. *)
Definition status_step (acc : gmap string Z * list target) (t : target)
  : gmap string Z * list target :=
  let '(downloaded_url, tmp) := acc in
  let '(url, output_path) := t in
  match downloaded_url !! url with
  | Some n =>
      let downloaded_url := <[url := n - 1]> downloaded_url in
      if decide (n - 1 = 0)
      then (delete url downloaded_url, tmp)
      else (downloaded_url, tmp)
  | None => (downloaded_url, tmp ++ [(url, output_path)])
  end.

Definition status_loop (downloaded_url : gmap string Z) (targets : list target)
  : list target :=
  (foldl status_step (downloaded_url, []) targets).2.

(** The reconciliation as the specification words it: a multiset of logged
    URLs, and a walk over the targets that drops a target and takes one
    instance of its URL out of the multiset while one remains. *)
Fixpoint reconcile (logged : gmultiset string) (all_targets : list target)
  : list target :=
  match all_targets with
  | [] => []
  | t :: rest =>
      if decide (0 < multiplicity t.1 logged)%nat
      then reconcile (logged ∖ {[+ t.1 +]}) rest
      else t :: reconcile logged rest
  end.

(** ** Exceptions, the network and the world outside the object *)

Inductive exn : Type :=
| AssertionError
| UnboundLocalError (name : string)
| ValueError (msg : string)
| FileNotFoundError (path : string)
| Timeout
| ConnectionError.

Inductive Outcome (A : Type) : Type :=
| Ok (a : A)
| Raise (e : exn).
Arguments Ok {A} a.
Arguments Raise {A} e.

(** What the code reads of a [requests.Response]: its truth value
    ([if response:]), [status_code] and [content]. *)
Record Response : Type := {
  ok : bool;
  status_code : Z;
  content : list Byte.byte
}.

(** What one [session.get(url, timeout=...)] does: it hands back a response,
    or it raises (requests raises [Timeout] when the time limit passes and
    [ConnectionError] when no connection can be made). *)
Inductive GetResult : Type :=
| Responds (response : Response)
| Fails (e : exn).

(** Effects in the order in which they happen.  Thread [0] is the thread
    that calls the methods; the threads of a pool are numbered from [1]. *)
Inductive Event : Type :=
| Stdout (text : string)
| Stderr (text : string)
| LogInfo (text : string)
| Get (thread : nat) (url : string)
| Sleep (thread : nat) (secs : Z)
| LogAppend (text : string).

Record World : Type := {
  log : option string;
  data : gmap string (list Byte.byte);
  dirs : gset string;
  tls : gmap nat Z;
  trace : list Event
}.

(** [log]: the text of [downloaded.log], [None] while the file does not
    exist.  [data]: the files written under [data/], by path; they are
    taken to be other files than the log.  [dirs]: the directories that
    exist.  [tls]: [thread_local.err_cntr] of every thread that has the
    attribute. *)

Record URLDownloader_v2 : Type := {
  local_output_path : string;
  output_path_list : list string;
  url_list : list string;
  num_thread : Z;
  err_tolerance_num : Z;
  stop_interval : Z;
  timeout : Z;
  http_headers : gmap string string;
  verbose : bool;
  custom_img_saver :
    option (string → Response → gmap string (list Byte.byte)
            → gmap string (list Byte.byte));
  err_cnter : Z;
  url_cnter : Z;
  log_file : string
}.

Definition set_lists (urls paths : list string) (self : URLDownloader_v2)
  : URLDownloader_v2 :=
  {| local_output_path := local_output_path self;
     output_path_list := paths;
     url_list := urls;
     num_thread := num_thread self;
     err_tolerance_num := err_tolerance_num self;
     stop_interval := stop_interval self;
     timeout := timeout self;
     http_headers := http_headers self;
     verbose := verbose self;
     custom_img_saver := custom_img_saver self;
     err_cnter := err_cnter self;
     url_cnter := url_cnter self;
     log_file := log_file self |}.

Definition set_url_cnter (n : Z) (self : URLDownloader_v2) : URLDownloader_v2 :=
  {| local_output_path := local_output_path self;
     output_path_list := output_path_list self;
     url_list := url_list self;
     num_thread := num_thread self;
     err_tolerance_num := err_tolerance_num self;
     stop_interval := stop_interval self;
     timeout := timeout self;
     http_headers := http_headers self;
     verbose := verbose self;
     custom_img_saver := custom_img_saver self;
     err_cnter := err_cnter self;
     url_cnter := n;
     log_file := log_file self |}.

Definition set_log (l : option string) (w : World) : World :=
  {| log := l; data := data w; dirs := dirs w; tls := tls w; trace := trace w |}.
Definition set_data (d : gmap string (list Byte.byte)) (w : World) : World :=
  {| log := log w; data := d; dirs := dirs w; tls := tls w; trace := trace w |}.
Definition set_dirs (d : gset string) (w : World) : World :=
  {| log := log w; data := data w; dirs := d; tls := tls w; trace := trace w |}.
Definition set_tls (t : gmap nat Z) (w : World) : World :=
  {| log := log w; data := data w; dirs := dirs w; tls := t; trace := trace w |}.
Definition add_event (e : Event) (w : World) : World :=
  {| log := log w; data := data w; dirs := dirs w; tls := tls w;
     trace := trace w ++ [e] |}.

(** ** The monad: state (the object and the world) and exceptions.  A raise
    keeps the state reached so far, as a Python exception does. *)

Record St : Type := { self : URLDownloader_v2; world : World }.

Definition M (A : Type) : Type := St → Outcome A * St.

#[global] Instance M_ret : MRet M := λ A a s, (Ok a, s).
#[global] Instance M_bind : MBind M := λ A B f m s,
  match m s with
  | (Ok a, s') => f a s'
  | (Raise e, s') => (Raise e, s')
  end.

Definition raise {A} (e : exn) : M A := λ s, (Raise e, s).
Definition get_self : M URLDownloader_v2 := λ s, (Ok (self s), s).
Definition get_world : M World := λ s, (Ok (world s), s).
Definition modify_self (f : URLDownloader_v2 → URLDownloader_v2) : M unit :=
  λ s, (Ok tt, {| self := f (self s); world := world s |}).
Definition modify_world (f : World → World) : M unit :=
  λ s, (Ok tt, {| self := self s; world := f (world s) |}).
Definition emit (e : Event) : M unit := modify_world (add_event e).

(** The outcome of a computation, kept as a value: what a future of the
    pool stores. *)
Definition capture {A} (m : M A) : M (Outcome A) :=
  λ s, let '(o, s') := m s in (Ok o, s').

(** ** [thread_local.err_cntr] *)

Definition get_thread_local_err_cntr (thread : nat) : M Z :=
  w ← get_world;
  match tls w !! thread with
  | Some n => mret n
  | None => modify_world (set_tls (<[thread := 0]> (tls w)));; mret 0
  end.

Definition increment_thread_local_err_cntr (thread : nat) : M unit :=
  w ← get_world;
  let n := default 0 (tls w !! thread) in
  modify_world (set_tls (<[thread := n + 1]> (tls w))).

Definition set_to_zero_thread_local_err_cntr (thread : nat) : M unit :=
  modify_world (λ w, set_tls (<[thread := 0]> (tls w)) w).

(** ** The methods of [URLDownloader_v2] *)

(** [l[:num]] *)
Definition slice_to {A} (l : list A) (num : Z) : list A :=
  if decide (0 ≤ num) then take (Z.to_nat num) l
  else take (Z.to_nat (Z.of_nat (length l) + num)) l.

Definition log_record (url status : string) : string :=
  url +:+ Text.tab +:+ status +:+ Text.nl.

(** [with open(self.log_file, "a") as f: for to_print in lines: f.write(to_print)] *)
Definition append_log (lines : list string) : M unit :=
  let text := foldr String.append EmptyString lines in
  modify_world (λ w, add_event (LogAppend text)
                       (set_log (Some (default EmptyString (log w) +:+ text)) w)).

Definition update_downloading_status : M unit :=
  self ← get_self;
  w ← get_world;
  match log w with
  | None => raise (FileNotFoundError (log_file self))
  | Some text =>
      let downloaded_url := Counter.of_list (downloaded_urls text) in
      let tmp :=
        status_loop downloaded_url (zip (url_list self) (output_path_list self)) in
      modify_self (set_lists (tmp.*1) (tmp.*2))
  end.

Definition get_num_urls_needed : M Z :=
  update_downloading_status;;
  self ← get_self;
  mret (Z.of_nat (length (url_list self))).

(** [for to_print in lines: print(to_print, end="", file=sys.stderr)] *)
Fixpoint print_all (lines : list string) : M unit :=
  match lines with
  | [] => mret tt
  | to_print :: rest => emit (Stderr to_print);; print_all rest
  end.

(** [download_site], run by thread [thread], when its GET does [got]. *)
Definition download_site (thread : nat) (got : GetResult)
    (url outpath : string) (log_flag : bool) : M (list string * list string) :=
  emit (Get thread url);;
  response ← match got with
             | Responds response => mret response
             | Fails e => raise e
             end;
  self ← get_self;
  '(print_to_log_file, print_to_stderr) ←
    (if ok response then
       let print_to_stderr := if verbose self then ["o"] else [] in
       let cnt := url_cnter self + 1 in
       modify_self (set_url_cnter cnt);;
       let print_to_stderr :=
         if bool_decide (cnt `mod` 1000 = 0) && verbose self
         then print_to_stderr ++ ["# processed url: " +:+ pretty cnt +:+ "..."]
         else print_to_stderr in
       modify_world (λ w,
         match custom_img_saver self with
         | Some saver => set_data (saver outpath response (data w)) w
         | None => set_data (<[outpath := content response]> (data w)) w
         end);;
       set_to_zero_thread_local_err_cntr thread;;
       mret ([log_record url "o"], print_to_stderr)
     else
       let print_to_stderr := ["x"] in
       let cnt := url_cnter self + 1 in
       modify_self (set_url_cnter cnt);;
       let print_to_stderr :=
         if decide (cnt `mod` 1000 = 0)
         then print_to_stderr ++ ["# processed url: " +:+ pretty cnt +:+ "..."]
         else print_to_stderr in
       n ← get_thread_local_err_cntr thread;
       print_to_stderr ←
         (if decide (err_tolerance_num self ≤ n) then
            emit (Sleep thread (stop_interval self));;
            set_to_zero_thread_local_err_cntr thread;;
            mret (print_to_stderr ++
                  ["last error code is " +:+ pretty (status_code response)
                   +:+ ", error url: " +:+ url])
          else mret print_to_stderr);
       increment_thread_local_err_cntr thread;;
       mret ([log_record url "x"], print_to_stderr));
  (if log_flag then
     print_all print_to_stderr;;
     emit (Stderr Text.nl);;
     append_log print_to_log_file
   else mret tt);;
  mret (print_to_log_file, print_to_stderr).

(** *** The pool of [batch_download_sites]

    [ThreadPoolExecutor(max_workers=num_thread)] starts new threads, which
    own no [thread_local] attribute yet, and [executor.map] hands them the
    calls in the order of the lists.  Each call is taken as one step; which
    thread runs the [i]-th call is the schedule's choice [sched i], and what
    its GET does is [net i].  A call that raises leaves its exception in
    its future and the pool goes on with the next call; leaving the [with]
    block waits for all of them. *)

Definition pool_thread (self : URLDownloader_v2) (k : nat) : nat :=
  S (k `mod` Z.to_nat (num_thread self)).

Definition fresh_pool (w : World) : World :=
  set_tls (match tls w !! 0%nat with
           | Some n => {[ 0%nat := n ]}
           | None => ∅
           end) w.

Fixpoint pool_map (sched : nat → nat) (net : nat → GetResult) (i : nat)
    (calls : list target) : M (list (Outcome (list string * list string))) :=
  match calls with
  | [] => mret []
  | (url, outpath) :: rest =>
      self ← get_self;
      result ← capture (download_site (pool_thread self (sched i)) (net i)
                                      url outpath false);
      results ← pool_map sched net (S i) rest;
      mret (result :: results)
  end.

(** [list(results)]: the results in the order of the calls; the first call
    that raised raises again here. *)
Fixpoint results_list {A} (results : list (Outcome A)) : M (list A) :=
  match results with
  | [] => mret []
  | Ok a :: rest => l ← results_list rest; mret (a :: l)
  | Raise e :: _ => raise e
  end.

Definition batch_download_sites (sched : nat → nat) (net : nat → GetResult)
    (batch_size : Z) : M unit :=
  self ← get_self;
  let num := if decide (batch_size = -1)
             then Some (Z.of_nat (length (url_list self))) else None in
  num ← match num with
        | Some num => mret num
        | None => raise (UnboundLocalError "num")
        end;
  emit (Stdout ("# files to download: "
                +:+ pretty (length (slice_to (url_list self) num))));;
  (if decide (num_thread self ≤ 0)
   then raise (ValueError "max_workers must be greater than 0")
   else mret tt);;
  modify_world fresh_pool;;
  results ← pool_map sched net 0
              (zip (slice_to (url_list self) num)
                   (slice_to (output_path_list self) num));
  modify_world fresh_pool;;
  results ← results_list results;
  print_all (concat (results.*2));;
  emit (Stderr Text.nl);;
  append_log (concat (results.*1));;
  update_downloading_status.

(** [download_all_sites]: the [while] loop runs as long as the fuel lasts;
    [None] is a loop that has not ended within [fuel] tests of its
    condition.  [pools i] is the schedule and the network of the [i]-th
    batch from here. *)
Fixpoint download_all_sites (fuel : nat)
    (pools : nat → (nat → nat) * (nat → GetResult)) (batch_size : Z)
    (s : St) : option (Outcome unit * St) :=
  match fuel with
  | O => None
  | S fuel =>
      if decide (0 < length (url_list (self s)))%nat then
        match batch_download_sites (pools 0%nat).1 (pools 0%nat).2 batch_size s with
        | (Ok _, s') => download_all_sites fuel (λ i, pools (S i)) batch_size s'
        | (Raise e, s') => Some (Raise e, s')
        end
      else Some (Ok tt, s)
  end.

(** ** Construction *)

Section Construction.

(** [urlparse(url).path], [urlparse(url).netloc] and the order in which
    [list(set(l))] lists the elements of [l] are the library's. *)
Variables urlparse_path urlparse_netloc : string → string.
Variable set_to_list : list string → list string.

Definition get_outpath_from_url (local_output_path url : string) : string :=
  let fname :=
    if decide (Text.basename (urlparse_path url) = EmptyString)
    then urlparse_netloc url
    else Text.basename (urlparse_path url) in
  Text.join local_output_path ["data"; fname].

(** [if output_name_list:] *)
Definition truthy (output_name_list : option (list string)) : bool :=
  match output_name_list with
  | Some (_ :: _) => true
  | _ => false
  end.

Definition __init__ (url_list : list string) (local_output_path : string)
    (num_thread err_tolerance_num stop_interval timeout : Z)
    (http_headers : gmap string string)
    (output_name_list : option (list string)) (verbose : bool)
    (custom_img_saver :
       option (string → Response → gmap string (list Byte.byte)
               → gmap string (list Byte.byte)))
    (w : World) : Outcome URLDownloader_v2 * World :=
  let lists : Outcome (list string * list string) :=
    if truthy output_name_list then
      let names := default [] output_name_list in
      if decide (length url_list = length names)
      then Ok (url_list,
               (λ name, Text.join local_output_path ["data"; name]) <$> names)
      else Raise AssertionError
    else
      let url_list := set_to_list url_list in
      Ok (url_list, get_outpath_from_url local_output_path <$> url_list) in
  match lists with
  | Raise e => (Raise e, w)
  | Ok (url_list, output_path_list) =>
      let this :=
        {| local_output_path := local_output_path;
           output_path_list := output_path_list;
           url_list := url_list;
           num_thread := num_thread;
           err_tolerance_num := err_tolerance_num;
           stop_interval := stop_interval;
           timeout := timeout;
           http_headers := http_headers;
           verbose := verbose;
           custom_img_saver := custom_img_saver;
           err_cnter := 0;
           url_cnter := 0;
           log_file := Text.join local_output_path ["downloaded.log"] |} in
      let data_path := Text.join local_output_path ["data"] in
      let w :=
        if decide (data_path ∈ dirs w) then w
        else set_dirs ({[ data_path ]} ∪ dirs w)
               (add_event (LogInfo ("Output folder is not exist, create folder: "
                                    +:+ data_path)) w) in
      let w :=
        match log w with
        | Some _ => w
        | None => set_log (Some EmptyString)
                    (add_event (LogInfo "Creating log_file") w)
        end in
      match update_downloading_status {| self := this; world := w |} with
      | (Ok _, s) => (Ok (self s), world s)
      | (Raise e, s) => (Raise e, world s)
      end
  end.

End Construction.

(** ** [URLDownloader_v1.download_site]: the sibling with one counter on the
    object instead of one per thread *)

Module V1.

Record URLDownloader_v1 : Type := {
  url_list : list string;
  out_path : string;
  outpath_list : list string;
  num_thread : Z;
  err_tolerance_num : Z;
  stop_interval : Z;
  time_out_for_GET : Z;
  http_headers : gmap string string;
  verbose : bool;
  err_cnter : Z;
  url_cnter : Z;
  log_file : string
}.

Definition set_cnters (err url : Z) (self : URLDownloader_v1) : URLDownloader_v1 :=
  {| url_list := url_list self;
     out_path := out_path self;
     outpath_list := outpath_list self;
     num_thread := num_thread self;
     err_tolerance_num := err_tolerance_num self;
     stop_interval := stop_interval self;
     time_out_for_GET := time_out_for_GET self;
     http_headers := http_headers self;
     verbose := verbose self;
     err_cnter := err;
     url_cnter := url;
     log_file := log_file self |}.

Definition write_log (line : string) (w : World) : World :=
  add_event (LogAppend line)
    (set_log (Some (default EmptyString (log w) +:+ line)) w).

Definition download_site (self : URLDownloader_v1) (w : World) (thread : nat)
    (got : GetResult) (url outpath : string)
  : Outcome unit * URLDownloader_v1 * World :=
  let w := add_event (Get thread url) w in
  match got with
  | Fails e => (Raise e, self, w)
  | Responds response =>
      let cnt := url_cnter self + 1 in
      if ok response then
        let w := if verbose self then add_event (Stderr "o") w else w in
        let w := if bool_decide (cnt `mod` 1000 = 0) && verbose self
                 then add_event (Stderr ("# processed url: " +:+ pretty cnt
                                         +:+ "...")) w
                 else w in
        let w := set_data (<[outpath := content response]> (data w)) w in
        let w := write_log (log_record url "o") w in
        (Ok tt, set_cnters 0 cnt self, w)
      else
        let w := add_event (Stderr "x") w in
        let w := if bool_decide (cnt `mod` 1000 = 0)
                 then add_event (Stderr ("# processed url: " +:+ pretty cnt
                                         +:+ "...")) w
                 else w in
        let '(err, w) :=
          if decide (err_tolerance_num self ≤ err_cnter self) then
            (0, add_event (Stderr ("last error code is "
                                   +:+ pretty (status_code response)
                                   +:+ ", error url: " +:+ url))
                  (add_event (Sleep thread (stop_interval self)) w))
          else (err_cnter self + 1, w) in
        let w := write_log (log_record url "x") w in
        (Ok tt, set_cnters err cnt self, w)
  end.

End V1.

(** * Properties *)

(** ** The counter of the code and the multiset of the specification *)

(** [c] holds exactly the positive counts of [X]: a key is in the counter
    when, and only when, the multiset still has an instance of it. *)
Definition counts (c : gmap string Z) (X : gmultiset string) : Prop :=
  ∀ k, c !! k = if decide (0 < multiplicity k X)%nat
                then Some (Z.of_nat (multiplicity k X)) else None.

Lemma counts_empty : counts ∅ ∅.
Proof. intros k. rewrite lookup_empty, multiplicity_empty. done. Qed.

Lemma counts_add c X k : counts c X → counts (Counter.add c k) ({[+ k +]} ⊎ X).
Proof.
  intros Hc k'. unfold Counter.add.
  rewrite multiplicity_disj_union.
  destruct (decide (k = k')) as [<-|Hne].
  - rewrite lookup_insert_eq, multiplicity_singleton_eq, (Hc k).
    repeat case_decide; simpl; try lia; f_equal; lia.
  - rewrite lookup_insert_ne by done.
    rewrite multiplicity_singleton_ne by done. apply Hc.
Qed.

Lemma counts_of_list_from c X l :
  counts c X → counts (foldl Counter.add c l) (list_to_set_disj l ⊎ X).
Proof.
  revert c X. induction l as [|k l IH]; intros c X Hc; simpl.
  - by rewrite (left_id_L ∅ (⊎)).
  - replace ({[+ k +]} ⊎ list_to_set_disj l ⊎ X)
      with (list_to_set_disj l ⊎ ({[+ k +]} ⊎ X)) by multiset_solver.
    apply IH. by apply counts_add.
Qed.

Lemma counts_of_list l : counts (Counter.of_list l) (list_to_set_disj l).
Proof.
  unfold Counter.of_list.
  rewrite <- (right_id_L ∅ (⊎) (list_to_set_disj l)).
  apply counts_of_list_from, counts_empty.
Qed.

(** One turn of the loop against one step of the specification's walk. *)
Lemma status_step_counts c X tmp t :
  counts c X →
  ∃ c' X', status_step (c, tmp) t = (c', tmp ++ reconcile X [t])
           ∧ counts c' X'
           ∧ ∀ rest, reconcile X (t :: rest) = reconcile X [t] ++ reconcile X' rest.
Proof.
  intros Hc. destruct t as [url path]. simpl.
  rewrite (Hc url). case_decide as Hpos.
  - exists (if decide (Z.of_nat (multiplicity url X) - 1 = 0)
            then delete url (<[url := Z.of_nat (multiplicity url X) - 1]> c)
            else <[url := Z.of_nat (multiplicity url X) - 1]> c),
           (X ∖ {[+ url +]}).
    split; [case_decide; by rewrite app_nil_r|]. split; [|done].
    intros k. rewrite multiplicity_difference.
    destruct (decide (url = k)) as [<-|Hne].
    + rewrite multiplicity_singleton_eq.
      case_decide as Hz.
      * rewrite lookup_delete_eq. case_decide; [lia|done].
      * rewrite lookup_insert_eq. case_decide; [f_equal; lia|lia].
    + rewrite multiplicity_singleton_ne by done.
      rewrite Nat.sub_0_r, <- (Hc k).
      case_decide.
      * rewrite lookup_delete_ne, lookup_insert_ne; done.
      * rewrite lookup_insert_ne; done.
  - exists c, X. done.
Qed.

Lemma status_loop_from c X tmp targets :
  counts c X →
  (foldl status_step (c, tmp) targets).2 = tmp ++ reconcile X targets.
Proof.
  revert c X tmp. induction targets as [|t rest IH]; intros c X tmp Hc.
  - simpl. by rewrite app_nil_r.
  - destruct (status_step_counts c X tmp t Hc) as (c' & X' & Hstep & Hc' & Hrest).
    cbn [foldl]. rewrite Hstep, (IH c' X' _ Hc'), (Hrest rest).
    by rewrite app_assoc.
Qed.

(** The loop of the code computes the walk of the specification. *)
Lemma status_loop_reconcile records targets :
  status_loop (Counter.of_list records) targets
  = reconcile (list_to_set_disj records) targets.
Proof.
  unfold status_loop.
  by rewrite (status_loop_from _ _ [] targets (counts_of_list records)).
Qed.

(** ** What the walk keeps *)

Lemma reconcile_sublist X targets : sublist (reconcile X targets) targets.
Proof.
  revert X. induction targets as [|t rest IH]; intros X; simpl.
  - constructor.
  - case_decide.
    + apply sublist_cons, IH.
    + apply sublist_skip, IH.
Qed.

(** Per URL, the walk drops the first targets, as many as the multiset has
    instances of the URL, and keeps the later ones. *)
Lemma reconcile_filter_url X targets (u : string) :
  filter (λ t : target, t.1 = u) (reconcile X targets)
  = drop (multiplicity u X) (filter (λ t : target, t.1 = u) targets).
Proof.
  revert X. induction targets as [|t rest IH]; intros X; simpl.
  - by destruct (multiplicity u X).
  - case_decide as Hpos.
    + rewrite IH, multiplicity_difference.
      destruct (decide (t.1 = u)) as [Heq|Hne].
      * rewrite filter_cons_True by done.
        rewrite Heq in *. rewrite multiplicity_singleton_eq.
        destruct (multiplicity u X) as [|n]; [lia|].
        simpl. by rewrite Nat.sub_0_r.
      * rewrite filter_cons_False by done.
        rewrite multiplicity_singleton_ne by done. by rewrite Nat.sub_0_r.
    + destruct (decide (t.1 = u)) as [Heq|Hne].
      * rewrite !filter_cons_True by done.
        rewrite IH. rewrite Heq in *.
        replace (multiplicity u X) with 0%nat by lia. done.
      * rewrite !filter_cons_False by done. apply IH.
Qed.

Lemma multiplicity_list_to_set_disj (u : string) (l : list string) :
  multiplicity u (list_to_set_disj l) = length (filter (λ r, r = u) l).
Proof.
  induction l as [|r l IH]; simpl.
  - by rewrite multiplicity_empty.
  - rewrite multiplicity_disj_union, IH.
    destruct (decide (r = u)) as [->|Hne].
    + rewrite filter_cons_True by done.
      by rewrite multiplicity_singleton_eq.
    + rewrite filter_cons_False by done.
      by rewrite multiplicity_singleton_ne.
Qed.

(** Nothing logged for any URL of the list: the walk keeps the list. *)
Lemma reconcile_none X targets :
  (∀ t, t ∈ targets → multiplicity t.1 X = 0%nat) → reconcile X targets = targets.
Proof.
  induction targets as [|t rest IH]; intros Hnone; simpl; [done|].
  rewrite (Hnone t) by left. case_decide; [lia|].
  f_equal. apply IH. intros t' Ht'. apply Hnone. by right.
Qed.

(** ** [update_downloading_status] *)

Definition pending (s : St) : list target :=
  zip (url_list (self s)) (output_path_list (self s)).

Definition with_pending (l : list target) (s : St) : St :=
  {| self := set_lists (l.*1) (l.*2) (self s); world := world s |}.

Lemma pending_with_pending l s : pending (with_pending l s) = l.
Proof. unfold pending, with_pending. simpl. apply zip_fst_snd. Qed.

Lemma update_downloading_status_run s text :
  log (world s) = Some text →
  update_downloading_status s
  = (Ok tt, with_pending
              (reconcile (list_to_set_disj (downloaded_urls text)) (pending s)) s).
Proof.
  intros Hlog. unfold update_downloading_status, mbind, M_bind, get_self,
    get_world. simpl. rewrite Hlog.
  unfold modify_self, with_pending, pending. simpl.
  by rewrite status_loop_reconcile.
Qed.

(** C1. For every pending list and every log text, [update_downloading_status]
    counts the logged URLs, walks the targets in their order, drops a target
    and takes one off the count of its URL while that count is positive,
    keeps the target otherwise: it leaves exactly the list that the
    specification's multiset subtraction [reconcile] yields, and that list
    keeps the kept targets in their original relative order. *)
Theorem C1_update_downloading_status_is_multiset_subtraction (s : St) (text : string) :
  log (world s) = Some text →
  ∃ s',
    update_downloading_status s = (Ok tt, s')
    ∧ world s' = world s
    ∧ pending s' = reconcile (list_to_set_disj (downloaded_urls text)) (pending s)
    ∧ sublist (pending s') (pending s)
    ∧ length (url_list (self s')) = length (pending s')
    ∧ length (output_path_list (self s')) = length (pending s').
Proof.
  intros Hlog. eexists. split; [by apply update_downloading_status_run|].
  rewrite pending_with_pending. split; [done|]. split; [done|].
  split; [apply reconcile_sublist|].
  simpl. by rewrite !length_fmap.
Qed.

(** A downloader and a world to run the methods on: two targets for one URL
    and a third, and a log with one record. *)
Definition demo_self : URLDownloader_v2 :=
  {| local_output_path := "out";
     output_path_list := ["out/data/1"; "out/data/2"; "out/data/3"];
     url_list := ["http://x/a.jpg"; "http://x/a.jpg"; "http://x/b.jpg"];
     num_thread := 2;
     err_tolerance_num := 2;
     stop_interval := 5;
     timeout := 600;
     http_headers := ∅;
     verbose := true;
     custom_img_saver := None;
     err_cnter := 0;
     url_cnter := 0;
     log_file := "out/downloaded.log" |}.

Definition demo_world (log_text : option string) : World :=
  {| log := log_text; data := ∅; dirs := {[ "out/data" ]}; tls := ∅; trace := [] |}.

Definition demo (log_text : option string) : St :=
  {| self := demo_self; world := demo_world log_text |}.

Definition one_ok : string := log_record "http://x/a.jpg" "o".

Lemma C1_witness :
  ∃ s',
    update_downloading_status (demo (Some one_ok)) = (Ok tt, s')
    ∧ world s' = world (demo (Some one_ok))
    ∧ pending s' = reconcile (list_to_set_disj (downloaded_urls one_ok))
                             (pending (demo (Some one_ok)))
    ∧ sublist (pending s') (pending (demo (Some one_ok)))
    ∧ length (url_list (self s')) = length (pending s')
    ∧ length (output_path_list (self s')) = length (pending s').
Proof.
  apply (C1_update_downloading_status_is_multiset_subtraction
           (demo (Some one_ok)) one_ok).
  reflexivity.
Defined.

(** C5. When exactly two targets of the pending list have the URL [u], with
    the different paths [p1] (first) and [p2] (second), and the log has
    exactly one record for [u], one reconciliation leaves exactly one target
    with that URL pending, and it is the second one. *)
Theorem C5_duplicate_url_first_occurrence_satisfied
    (s : St) (text u p1 p2 : string) :
  log (world s) = Some text →
  filter (λ t : target, t.1 = u) (pending s) = [(u, p1); (u, p2)] →
  p1 ≠ p2 →
  length (filter (λ r, r = u) (downloaded_urls text)) = 1%nat →
  ∃ s',
    update_downloading_status s = (Ok tt, s')
    ∧ filter (λ t : target, t.1 = u) (pending s') = [(u, p2)]
    ∧ (u, p2) ∈ pending s'
    ∧ (u, p1) ∉ pending s'.
Proof.
  intros Hlog Htwo Hne Hone.
  eexists. split; [by apply update_downloading_status_run|].
  rewrite pending_with_pending.
  assert (Hkept : filter (λ t : target, t.1 = u)
            (reconcile (list_to_set_disj (downloaded_urls text)) (pending s))
          = [(u, p2)]).
  { by rewrite reconcile_filter_url, multiplicity_list_to_set_disj, Hone, Htwo. }
  split; [done|]. split.
  - apply (list_elem_of_filter (λ t : target, t.1 = u) _ (u, p2)).
    rewrite Hkept. by left.
  - intros Hin.
    assert (Hin' : (u, p1) ∈ [(u, p2)]).
    { rewrite <- Hkept. apply list_elem_of_filter. done. }
    apply list_elem_of_singleton in Hin'. congruence.
Qed.

Lemma C5_witness :
  ∃ s',
    update_downloading_status (demo (Some one_ok)) = (Ok tt, s')
    ∧ filter (λ t : target, t.1 = "http://x/a.jpg") (pending s')
      = [("http://x/a.jpg", "out/data/2")]
    ∧ ("http://x/a.jpg", "out/data/2") ∈ pending s'
    ∧ ("http://x/a.jpg", "out/data/1") ∉ pending s'.
Proof.
  apply (C5_duplicate_url_first_occurrence_satisfied
           (demo (Some one_ok)) one_ok "http://x/a.jpg" "out/data/1" "out/data/2").
  - reflexivity.
  - reflexivity.
  - discriminate.
  - reflexivity.
Defined.

(** ** Reconciling again *)

(** One reconciliation against records for a sub-multiset of the target
    URLs takes out as many targets as there are records. *)
Lemma reconcile_length X (targets : list target) :
  X ⊆ list_to_set_disj (targets.*1) →
  (length (reconcile X targets) + size X = length targets)%nat.
Proof.
  revert X. induction targets as [|t rest IH]; intros X Hsub.
  - apply gmultiset_subseteq_size in Hsub. simpl in *.
    rewrite (gmultiset_size_empty (A := string)) in Hsub. lia.
  - rewrite fmap_cons, list_to_set_disj_cons in Hsub. simpl.
    case_decide as Hpos.
    + assert (Hin : {[+ t.1 +]} ⊆ X).
      { by apply gmultiset_singleton_subseteq_l, elem_of_multiplicity. }
      specialize (IH (X ∖ {[+ t.1 +]})).
      rewrite gmultiset_size_difference, gmultiset_size_singleton in IH by done.
      apply gmultiset_subseteq_size in Hin as Hsize.
      rewrite gmultiset_size_singleton in Hsize.
      cut (length (reconcile (X ∖ {[+ t.1 +]}) rest) + (size X - 1)
           = length rest)%nat; [lia|].
      apply IH. multiset_solver.
    + simpl. rewrite <- (IH X); [lia|].
      intros k. specialize (Hsub k). rewrite multiplicity_disj_union in Hsub.
      destruct (decide (k = t.1)) as [->|Hne]; [lia|].
      rewrite multiplicity_singleton_ne in Hsub by done. lia.
Qed.

(** With pairwise different URLs nothing that stays pending has a record. *)
Lemma reconcile_NoDup_unlogged X (targets : list target) :
  NoDup (targets.*1) →
  ∀ t, t ∈ reconcile X targets → multiplicity t.1 X = 0%nat.
Proof.
  revert X. induction targets as [|t rest IH]; intros X Hnd t' Hin; simpl in *.
  - by apply elem_of_nil in Hin.
  - apply NoDup_cons in Hnd as [Hfresh Hnd].
    case_decide as Hpos.
    + specialize (IH _ Hnd _ Hin). rewrite multiplicity_difference in IH.
      assert (t'.1 ≠ t.1).
      { intros Heq. apply Hfresh. rewrite <- Heq.
        apply list_elem_of_fmap. exists t'. split; [done|].
        eapply elem_of_sublist; [done|apply reconcile_sublist]. }
      rewrite multiplicity_singleton_ne in IH by done. lia.
    + apply elem_of_cons in Hin as [->|Hin]; [lia|]. by apply IH.
Qed.

(** So for pairwise different URLs any number of further reconciliations
    against the same records changes nothing. *)
Lemma reconcile_again_NoDup X (targets : list target) (n : nat) :
  NoDup (targets.*1) →
  Nat.iter n (reconcile X) (reconcile X targets) = reconcile X targets.
Proof.
  intros Hnd. induction n as [|n IH]; simpl; [done|].
  rewrite IH. by apply reconcile_none, reconcile_NoDup_unlogged.
Qed.

(** [update_downloading_status] run [n] times in a row. *)
Fixpoint update_times (n : nat) : M unit :=
  match n with
  | O => mret tt
  | S n => update_downloading_status;; update_times n
  end.

Lemma update_times_run n s text :
  log (world s) = Some text →
  update_times n s
  = (Ok tt, Nat.iter n (λ s, with_pending
       (reconcile (list_to_set_disj (downloaded_urls text)) (pending s)) s) s).
Proof.
  revert s. induction n as [|n IH]; intros s Hlog; [done|].
  cbn [update_times]. unfold mbind, M_bind.
  rewrite (update_downloading_status_run s text Hlog).
  rewrite IH by done. by rewrite Nat.iter_succ_r.
Qed.

Lemma pending_update_iter n s X :
  pending (Nat.iter n (λ s, with_pending (reconcile X (pending s)) s) s)
  = Nat.iter n (reconcile X) (pending s).
Proof.
  induction n as [|n IH]; simpl; [done|].
  by rewrite pending_with_pending, IH.
Qed.

(** Resumption when no URL occurs twice: the targets marked in the log go,
    and running the reconciliation again and again leaves what is pending
    alone. *)
Lemma update_again_NoDup (s : St) (text : string) (n : nat) :
  log (world s) = Some text →
  NoDup (url_list (self s)) →
  length (url_list (self s)) = length (output_path_list (self s)) →
  ∃ s1 s2,
    update_downloading_status s = (Ok tt, s1)
    ∧ update_times n s1 = (Ok tt, s2)
    ∧ pending s2 = pending s1.
Proof.
  intros Hlog Hnd Hlen.
  eexists _, _. split; [by apply update_downloading_status_run|].
  split; [by apply update_times_run|].
  rewrite pending_update_iter, !pending_with_pending.
  apply reconcile_again_NoDup. unfold pending. by rewrite fst_zip by lia.
Qed.

(** C4. (What the code does at the failing input.)  Two targets share a
    URL, the log marks one download of that URL, and nothing is written to
    the log in between: the first reconciliation leaves the targets minus
    the marked one, and the second reconciliation takes the remaining
    target of that URL away as well, so that [get_num_urls_needed] counts
    one pending target where two are not downloaded. *)
Theorem C4_second_reconciliation_subtracts_again :
  ∃ s1 s2,
    update_downloading_status (demo (Some one_ok)) = (Ok tt, s1)
    ∧ pending s1 = [("http://x/a.jpg", "out/data/2"); ("http://x/b.jpg", "out/data/3")]
    ∧ world s1 = world (demo (Some one_ok))
    ∧ update_downloading_status s1 = (Ok tt, s2)
    ∧ pending s2 = [("http://x/b.jpg", "out/data/3")]
    ∧ world s2 = world (demo (Some one_ok))
    ∧ get_num_urls_needed s1 = (Ok 1, s2).
Proof.
  exists (with_pending [("http://x/a.jpg", "out/data/2"); ("http://x/b.jpg", "out/data/3")]
            (demo (Some one_ok))),
         (with_pending [("http://x/b.jpg", "out/data/3")] (demo (Some one_ok))).
  repeat split; vm_compute; reflexivity.
Qed.

(** ** One call of [download_site] *)

Definition mark (r : Response) : string := if ok r then "o" else "x".

(** What a call does to the counter of its thread, and whether it sleeps:
    the [if]/[else] of [download_site] read as a function of the counter
    ([None] while the thread has no [err_cntr] attribute). *)
Definition breaker (tol : Z) (c : option Z) (success : bool) : Z * bool :=
  if success then (0, false)
  else if decide (tol ≤ default 0 c) then (1, true)
  else (default 0 c + 1, false).

Ltac run_M :=
  unfold mbind, M_bind, mret, M_ret, emit, raise, capture, get_self, get_world,
    modify_self, modify_world, set_to_zero_thread_local_err_cntr,
    increment_thread_local_err_cntr, get_thread_local_err_cntr, append_log;
  simpl.

Lemma download_site_responds thread r url outpath s :
  ∃ msgs s',
    download_site thread (Responds r) url outpath false s
    = (Ok ([log_record url (mark r)], msgs), s')
    ∧ self s' = set_url_cnter (url_cnter (self s) + 1) (self s)
    ∧ log (world s') = log (world s)
    ∧ dirs (world s') = dirs (world s)
    ∧ tls (world s')
      = <[thread := (breaker (err_tolerance_num (self s))
                             (tls (world s) !! thread) (ok r)).1]> (tls (world s))
    ∧ trace (world s')
      = trace (world s) ++
        Get thread url ::
        (if (breaker (err_tolerance_num (self s))
                     (tls (world s) !! thread) (ok r)).2
         then [Sleep thread (stop_interval (self s))] else []).
Proof.
  unfold download_site, breaker, mark. run_M.
  destruct (ok r); run_M.
  - eexists _, _. split; [reflexivity|]. simpl.
    destruct (custom_img_saver (self s)); simpl; by repeat split.
  - destruct (tls (world s) !! thread) as [n|] eqn:Hn; run_M.
    + case_decide; run_M; rewrite ?lookup_insert_eq; simpl;
        eexists _, _; (split; [reflexivity|]); simpl;
        rewrite ?insert_insert_eq, ?Hn, <- ?app_assoc; simpl;
        by repeat split.
    + case_decide; run_M; rewrite ?lookup_insert_eq; simpl;
        eexists _, _; (split; [reflexivity|]); simpl;
        rewrite ?insert_insert_eq, <- ?app_assoc; simpl;
        by repeat split.
Qed.

(** A GET that raises: the call raises the same exception, and all it has
    done is the GET. *)
Lemma download_site_fails thread e url outpath log_flag s :
  download_site thread (Fails e) url outpath log_flag s
  = (Raise e, {| self := self s;
                 world := add_event (Get thread url) (world s) |}).
Proof. reflexivity. Qed.

(** ** The pool *)

Definition sleeps (evs : list Event) : list (nat * Z) :=
  omap (λ e, match e with Sleep t secs => Some (t, secs) | _ => None end) evs.

(** The events of a pool and the counters it ends with, from the counters it
    starts with: [threads i] runs the [i]-th call. *)
Fixpoint pool_events (tol stop : Z) (threads : nat → nat) (net : nat → GetResult)
    (i : nat) (calls : list target) (tl : gmap nat Z) : list Event * gmap nat Z :=
  match calls with
  | [] => ([], tl)
  | (url, _) :: rest =>
      match net i with
      | Responds r =>
          let b := breaker tol (tl !! threads i) (ok r) in
          let '(evs, tl') :=
            pool_events tol stop threads net (S i) rest (<[threads i := b.1]> tl) in
          (Get (threads i) url
             :: (if b.2 then [Sleep (threads i) stop] else []) ++ evs, tl')
      | Fails _ =>
          let '(evs, tl') := pool_events tol stop threads net (S i) rest tl in
          (Get (threads i) url :: evs, tl')
      end
  end.

(** What the future of each call holds. *)
Fixpoint results_match (net : nat → GetResult) (i : nat) (calls : list target)
    (results : list (Outcome (list string * list string))) : Prop :=
  match calls, results with
  | [], [] => True
  | (url, _) :: calls, result :: results =>
      match net i with
      | Responds r => ∃ msgs, result = Ok ([log_record url (mark r)], msgs)
      | Fails e => result = Raise e
      end ∧ results_match net (S i) calls results
  | _, _ => False
  end.

Definition same_config (a b : URLDownloader_v2) : Prop :=
  b = set_url_cnter (url_cnter b) a.

Lemma same_config_refl a : same_config a a.
Proof. by destruct a. Qed.

Lemma same_config_trans a b c : same_config a b → same_config b c → same_config a c.
Proof. unfold same_config. intros -> ->. by destruct a. Qed.

Lemma pool_map_run sched net calls : ∀ i s,
  ∃ results s',
    pool_map sched net i calls s = (Ok results, s')
    ∧ results_match net i calls results
    ∧ same_config (self s) (self s')
    ∧ log (world s') = log (world s)
    ∧ dirs (world s') = dirs (world s)
    ∧ trace (world s')
      = trace (world s) ++
        (pool_events (err_tolerance_num (self s)) (stop_interval (self s))
           (λ i, pool_thread (self s) (sched i)) net i calls (tls (world s))).1
    ∧ tls (world s')
      = (pool_events (err_tolerance_num (self s)) (stop_interval (self s))
           (λ i, pool_thread (self s) (sched i)) net i calls (tls (world s))).2.
Proof.
  induction calls as [|[url outpath] rest IH]; intros i s.
  - exists [], s. simpl. rewrite app_nil_r.
    repeat split; auto using same_config_refl.
  - cbn [pool_map]. unfold mbind at 1, M_bind at 1, get_self at 1.
    unfold mbind at 1, M_bind at 1, capture at 1.
    destruct (net i) as [r|e] eqn:Hnet.
    + destruct (download_site_responds (pool_thread (self s) (sched i)) r
                  url outpath s)
        as (msgs & s1 & Hrun & Hself & Hlog & Hdirs & Htls & Htrace).
      rewrite Hrun.
      destruct (IH (S i) s1) as (results & s' & Hrest & Hmatch & Hcfg & Hlog'
                                 & Hdirs' & Htrace' & Htls').
      unfold mbind, M_bind. rewrite Hrest. unfold mret, M_ret.
      exists (Ok ([log_record url (mark r)], msgs) :: results), s'.
      split; [done|]. simpl. rewrite Hnet.
      rewrite Hself in Htrace', Htls', Hcfg. simpl in Htrace', Htls'.
      rewrite Htls in Htrace', Htls'.
      destruct (pool_events _ _ _ _ _ _ _) as [evs tl'].
      simpl in *. rewrite Htrace', Htrace, <- app_assoc. simpl.
      repeat split; eauto; congruence.
    + rewrite download_site_fails.
      destruct (IH (S i) {| self := self s;
                            world := add_event (Get (pool_thread (self s) (sched i)) url)
                                       (world s) |})
        as (results & s' & Hrest & Hmatch & Hcfg & Hlog' & Hdirs' & Htrace' & Htls').
      unfold mbind, M_bind. rewrite Hrest. unfold mret, M_ret.
      exists (Raise e :: results), s'.
      split; [done|]. simpl. rewrite Hnet. simpl in *.
      destruct (pool_events _ _ _ _ _ _ _) as [evs tl'].
      simpl in *. rewrite Htrace', <- app_assoc. simpl.
      repeat split; eauto; congruence.
Qed.

Lemma bind_ok {A B} (m : M A) (f : A → M B) s a s' :
  m s = (Ok a, s') → (m ≫= f) s = f a s'.
Proof. unfold mbind, M_bind. by intros ->. Qed.

Lemma bind_raise {A B} (m : M A) (f : A → M B) s e s' :
  m s = (Raise e, s') → (m ≫= f) s = (Raise e, s').
Proof. unfold mbind, M_bind. by intros ->. Qed.

Definition add_events (evs : list Event) (w : World) : World :=
  {| log := log w; data := data w; dirs := dirs w; tls := tls w;
     trace := trace w ++ evs |}.

Lemma print_all_run lines s :
  print_all lines s
  = (Ok tt, {| self := self s; world := add_events (Stderr <$> lines) (world s) |}).
Proof.
  revert s. induction lines as [|l lines IH]; intros s; simpl.
  - unfold mret, M_ret, add_events. rewrite app_nil_r. by destruct s as [? []].
  - erewrite bind_ok by reflexivity. rewrite IH. simpl.
    unfold add_events. simpl. by rewrite <- app_assoc.
Qed.

(** The first exception among the futures, and the values of the others. *)
Fixpoint first_raise {A} (results : list (Outcome A)) : option exn :=
  match results with
  | [] => None
  | Ok _ :: rest => first_raise rest
  | Raise e :: _ => Some e
  end.

Fixpoint values {A} (results : list (Outcome A)) : list A :=
  match results with
  | [] => []
  | Ok a :: rest => a :: values rest
  | Raise _ :: rest => values rest
  end.

Lemma results_list_run {A} (results : list (Outcome A)) s :
  results_list results s
  = (match first_raise results with
     | Some e => Raise e
     | None => Ok (values results)
     end, s).
Proof.
  induction results as [|[a|e] rest IH]; simpl; try done.
  unfold mbind, M_bind. rewrite IH. by destruct (first_raise rest).
Qed.

(** The first GET of a batch that raises, in the order of the calls, and
    the log records of the calls whose GET responds. *)
Fixpoint first_failure (net : nat → GetResult) (i : nat) (calls : list target)
  : option exn :=
  match calls with
  | [] => None
  | _ :: rest =>
      match net i with
      | Responds _ => first_failure net (S i) rest
      | Fails e => Some e
      end
  end.

Fixpoint batch_records (net : nat → GetResult) (i : nat) (calls : list target)
  : list string :=
  match calls with
  | [] => []
  | (url, _) :: rest =>
      match net i with
      | Responds r => [log_record url (mark r)]
      | Fails _ => []
      end ++ batch_records net (S i) rest
  end.

Lemma results_match_read net calls : ∀ i results,
  results_match net i calls results →
  first_raise results = first_failure net i calls
  ∧ concat ((values results).*1) = batch_records net i calls.
Proof.
  induction calls as [|[url outpath] rest IH]; intros i [|result results];
    simpl; try done.
  intros [Hres Hrest]. destruct (IH _ _ Hrest) as [Hfirst Hrecs].
  destruct (net i) as [r|e].
  - destruct Hres as [msgs ->]. simpl. split; [done|]. by f_equal.
  - rewrite Hres. by simpl.
Qed.


Lemma slice_to_length {A} (l : list A) : slice_to l (Z.of_nat (length l)) = l.
Proof.
  unfold slice_to. case_decide; [|lia].
  rewrite Nat2Z.id. apply firstn_all.
Qed.

Lemma zip_slice_to (l k : list string) :
  zip (slice_to l (Z.of_nat (length l))) (slice_to k (Z.of_nat (length l)))
  = zip l k.
Proof.
  rewrite slice_to_length. unfold slice_to. case_decide as Hlen; [|lia].
  clear Hlen. rewrite Nat2Z.id. revert k.
  induction l as [|x l IH]; intros [|y k]; simpl; try done. by rewrite IH.
Qed.

(** ** One batch *)

Definition batch_header (s : St) : Event :=
  Stdout ("# files to download: " +:+ pretty (length (url_list (self s)))).

Definition batch_pool (sched : nat → nat) (net : nat → GetResult) (s : St)
  : list Event * gmap nat Z :=
  pool_events (err_tolerance_num (self s)) (stop_interval (self s))
    (λ i, pool_thread (self s) (sched i)) net 0 (pending s)
    (tls (fresh_pool (world s))).

Definition batch_text (net : nat → GetResult) (s : St) : string :=
  foldr String.append EmptyString (batch_records net 0 (pending s)).

(** A batch of everything pending, with a pool that can be made: if a GET
    raises, the first such exception in the order of the calls leaves the
    method after all calls have run, and neither the log nor the pending
    list has changed; if every GET responds, the method ends after writing
    the records of all calls in one append and reconciling. *)
Lemma batch_run sched net s :
  0 < num_thread (self s) →
  match first_failure net 0 (pending s) with
  | Some e =>
      ∃ s', batch_download_sites sched net (-1) s = (Raise e, s')
        ∧ pending s' = pending s
        ∧ log (world s') = log (world s)
        ∧ trace (world s')
          = trace (world s) ++ batch_header s :: (batch_pool sched net s).1
  | None =>
      ∃ s' msgs, batch_download_sites sched net (-1) s = (Ok tt, s')
        ∧ log (world s')
          = Some (default EmptyString (log (world s)) +:+ batch_text net s)
        ∧ trace (world s')
          = trace (world s) ++ batch_header s :: (batch_pool sched net s).1
            ++ (Stderr <$> msgs) ++ [Stderr Text.nl; LogAppend (batch_text net s)]
        ∧ pending s'
          = reconcile
              (list_to_set_disj
                 (downloaded_urls (default EmptyString (log (world s))
                                   +:+ batch_text net s)))
              (pending s)
        ∧ url_list (self s') = (pending s').*1
  end.
Proof.
  intros Hthreads.
  destruct (pool_map_run sched net (pending s) 0
              {| self := self s;
                 world := fresh_pool (add_event (batch_header s) (world s)) |})
    as (results & s1 & Hpool & Hmatch & Hcfg & Hlog & Hdirs & Htrace & Htls).
  apply results_match_read in Hmatch as [Hfirst Hrecs].
  simpl in Hcfg, Hlog, Htrace, Htls.
  fold (batch_pool sched net s) in Htrace, Htls.
  assert (Hrun : batch_download_sites sched net (-1) s
    = (results ← results_list results;
       print_all (concat (results.*2));;
       emit (Stderr Text.nl);;
       append_log (concat (results.*1));;
       update_downloading_status)
        {| self := self s1; world := fresh_pool (world s1) |}).
  { unfold batch_download_sites.
    erewrite bind_ok by reflexivity. cbn beta.
    destruct (decide (-1 = -1)); [|done].
    destruct (decide (num_thread (self s) ≤ 0)); [lia|].
    erewrite bind_ok by reflexivity.
    erewrite bind_ok by reflexivity.
    erewrite bind_ok by reflexivity.
    erewrite bind_ok by reflexivity.
    cbn [self]. rewrite zip_slice_to, slice_to_length.
    erewrite bind_ok by exact Hpool.
    erewrite bind_ok by reflexivity. done. }
  rewrite Hrun, <- Hfirst. clear Hrun.
  destruct (first_raise results) as [e|] eqn:Hraise.
  - erewrite bind_raise; [|by rewrite results_list_run, Hraise].
    eexists. split; [reflexivity|]. simpl.
    unfold pending. simpl. rewrite Hcfg. simpl.
    rewrite Hlog, Htrace, <- app_assoc. done.
  - erewrite bind_ok; [|by rewrite results_list_run, Hraise].
    erewrite bind_ok by apply print_all_run.
    erewrite bind_ok by reflexivity.
    erewrite bind_ok by reflexivity.
    rewrite Hrecs. fold (batch_text net s).
    erewrite update_downloading_status_run by reflexivity.
    eexists _, (concat (values results).*2). split; [reflexivity|].
    rewrite pending_with_pending. simpl.
    rewrite Hlog, Htrace. simpl.
    split; [done|]. split; [|split; [|done]].
    + unfold batch_pool. rewrite <- !app_assoc. simpl. by rewrite <- ?app_assoc.
    + unfold pending. simpl. rewrite Hcfg. done.
Qed.

(** ** [log_flag] *)

(** What [download_site] does after the fetch when [log_flag] is set: it
    prints its messages and appends its records to the log itself. *)
Definition log_flag_effects (recs msgs : list string) (w : World) : World :=
  add_event (LogAppend (foldr String.append EmptyString recs))
    (set_log (Some (default EmptyString (log w)
                    +:+ foldr String.append EmptyString recs))
       (add_event (Stderr Text.nl) (add_events (Stderr <$> msgs) w))).

Lemma world_eq (w1 w2 : World) :
  log w1 = log w2 → data w1 = data w2 → dirs w1 = dirs w2 →
  tls w1 = tls w2 → trace w1 = trace w2 → w1 = w2.
Proof. destruct w1, w2. simpl. by intros -> -> -> -> ->. Qed.

Lemma download_site_log_flag thread got url outpath s :
  download_site thread got url outpath true s
  = match download_site thread got url outpath false s with
    | (Ok (recs, msgs), s') =>
        (Ok (recs, msgs),
         {| self := self s'; world := log_flag_effects recs msgs (world s') |})
    | (Raise e, s') => (Raise e, s')
    end.
Proof.
  unfold download_site, log_flag_effects. run_M.
  destruct got as [r|e]; [|done]. run_M.
  destruct (ok r); run_M.
  - destruct (verbose (self s)),
      (bool_decide ((url_cnter (self s) + 1) `mod` 1000 = 0)),
      (custom_img_saver (self s));
      run_M; do 2 f_equal; apply world_eq; simpl;
      rewrite <- ?app_assoc; reflexivity.
  - destruct (tls (world s) !! thread); run_M;
      repeat case_decide; run_M; do 2 f_equal; apply world_eq; simpl;
      rewrite <- ?app_assoc; reflexivity.
Qed.

Lemma omap_fmap_None {A B C} (f : B → option C) (g : A → B) (l : list A) :
  (∀ a, f (g a) = None) → omap f (g <$> l) = [].
Proof. intros Hnone. induction l as [|a l IH]; simpl; [done|]. by rewrite Hnone. Qed.

Lemma sleeps_app evs1 evs2 : sleeps (evs1 ++ evs2) = sleeps evs1 ++ sleeps evs2.
Proof. apply omap_app. Qed.

Lemma sleeps_stderr msgs : sleeps (Stderr <$> msgs) = [].
Proof. by apply omap_fmap_None. Qed.

(** The circuit breaker of one call, whatever [log_flag] is. *)
Lemma download_site_breaker thread r url outpath log_flag s :
  ∃ out s',
    download_site thread (Responds r) url outpath log_flag s = (Ok out, s')
    ∧ tls (world s')
      = <[thread := (breaker (err_tolerance_num (self s))
                             (tls (world s) !! thread) (ok r)).1]> (tls (world s))
    ∧ sleeps (trace (world s'))
      = sleeps (trace (world s)) ++
        (if (breaker (err_tolerance_num (self s))
                     (tls (world s) !! thread) (ok r)).2
         then [(thread, stop_interval (self s))] else []).
Proof.
  destruct (download_site_responds thread r url outpath s)
    as (msgs & s' & Hrun & _ & _ & _ & Htls & Htrace).
  destruct log_flag.
  - rewrite download_site_log_flag, Hrun.
    eexists _, _. split; [reflexivity|]. simpl. split; [done|].
    rewrite Htrace, !sleeps_app, sleeps_stderr. simpl.
    destruct (breaker _ _ _).2; simpl; by rewrite ?app_nil_r.
  - eexists _, _. split; [exact Hrun|]. split; [done|].
    rewrite Htrace, sleeps_app. simpl. by destruct (breaker _ _ _).2.
Qed.

(** ** What a pool does, read off its events *)











(** ** The ways a batch ends without running to its end *)

Lemma batch_unbound_num sched net batch_size s :
  batch_size ≠ -1 →
  batch_download_sites sched net batch_size s = (Raise (UnboundLocalError "num"), s).
Proof.
  intros Hsize. unfold batch_download_sites.
  erewrite bind_ok by reflexivity. cbn beta.
  destruct (decide (batch_size = -1)); [done|]. reflexivity.
Qed.




(** A network for the examples: the second call gets an error page, the
    other calls get their file. *)
Definition page (found : bool) : Response :=
  {| ok := found; status_code := if found then 200 else 404; content := [] |}.

Definition demo_net (i : nat) : GetResult :=
  Responds (page (negb (bool_decide (i = 1%nat)))).

Definition demo_sched (i : nat) : nat := i.


(** ** Transport failures *)




(** ** The circuit breaker *)









(** ** After the cooldown *)

(** A failure on a counter that has reached the tolerance: the call sleeps,
    and when it returns the counter of the thread is one, because the
    increment after the [if] runs in both cases. *)
Lemma download_site_cooldown thread r url outpath log_flag s :
  ok r = false →
  err_tolerance_num (self s) ≤ default 0 (tls (world s) !! thread) →
  ∃ out s',
    download_site thread (Responds r) url outpath log_flag s = (Ok out, s')
    ∧ sleeps (trace (world s'))
      = sleeps (trace (world s)) ++ [(thread, stop_interval (self s))]
    ∧ tls (world s') !! thread = Some 1.
Proof.
  intros Hfail Htol.
  destruct (download_site_breaker thread r url outpath log_flag s)
    as (out & s' & Hrun & Htls & Hsleeps).
  unfold breaker in Htls, Hsleeps. rewrite Hfail in Htls, Hsleeps.
  rewrite decide_True in Htls, Hsleeps by done. simpl in *.
  exists out, s'. split; [done|]. split; [done|].
  by rewrite Htls, lookup_insert_eq.
Qed.

(** The sibling [URLDownloader_v1.download_site] in the same situation: it
    sleeps and leaves its counter at zero, the increment being the [else]
    of the test. *)
Lemma v1_download_site_cooldown (self : V1.URLDownloader_v1) w thread r url outpath :
  ok r = false →
  V1.err_tolerance_num self ≤ V1.err_cnter self →
  ∃ self' w',
    V1.download_site self w thread (Responds r) url outpath = (Ok tt, self', w')
    ∧ sleeps (trace w') = sleeps (trace w) ++ [(thread, V1.stop_interval self)]
    ∧ V1.err_cnter self' = 0.
Proof.
  intros Hfail Htol. unfold V1.download_site. rewrite Hfail.
  rewrite decide_True by done. eexists _, _. split; [reflexivity|].
  split; [|done]. unfold V1.write_log. simpl.
  destruct (bool_decide _); simpl; rewrite !sleeps_app; simpl;
    by rewrite ?app_nil_r.
Qed.

Definition cooling : St :=
  {| self := demo_self;
     world := set_tls {[ 1%nat := 2 ]} (demo_world None) |}.

(** C8. (What the code does at the failing input.)  With a tolerance of two
    and the counter of the thread at two, a failing call sleeps for
    [stop_interval] seconds, and when it has returned the counter of the
    thread is one, not zero. *)
Theorem C8_counter_is_one_after_cooldown :
  ∃ out s',
    download_site 1 (Responds (page false)) "http://x/a.jpg" "out/data/1" false
      cooling = (Ok out, s')
    ∧ sleeps (trace (world s')) = [(1%nat, 5)]
    ∧ tls (world s') !! 1%nat = Some 1
    ∧ tls (world s') !! 1%nat ≠ Some 0.
Proof.
  destruct (download_site_cooldown 1 (page false) "http://x/a.jpg" "out/data/1"
              false cooling) as (out & s' & Hrun & Hsleeps & Htls); [done|done|].
  exists out, s'. rewrite Htls. by repeat split.
Qed.

(** ** [download_all_sites] *)

Lemma download_all_sites_done fuel pools batch_size s :
  url_list (self s) = [] →
  download_all_sites (S fuel) pools batch_size s = Some (Ok tt, s).
Proof. intros Hnil. cbn [download_all_sites]. by rewrite Hnil. Qed.

(** With a [batch_size] other than [-1] the first turn of the loop raises:
    [num] is bound only under [if batch_size == -1]. *)
Lemma download_all_sites_unbound_num fuel pools batch_size s :
  batch_size ≠ -1 →
  url_list (self s) ≠ [] →
  download_all_sites (S fuel) pools batch_size s
  = Some (Raise (UnboundLocalError "num"), s).
Proof.
  intros Hsize Hpending. cbn [download_all_sites].
  rewrite decide_True; [by rewrite batch_unbound_num|].
  destruct (url_list (self s)); [done|simpl; lia].
Qed.

(** C2. (What the code does at the failing input.)  With targets pending
    and the default [batch_size = 1024], [download_all_sites] raises
    [UnboundLocalError] in its first batch: nothing is fetched, nothing is
    logged and the pending list is as it was. *)
Theorem C2_download_all_sites_default_batch_size_raises :
  download_all_sites 1 (λ _, (demo_sched, demo_net)) 1024 (demo None)
  = Some (Raise (UnboundLocalError "num"), demo None)
  ∧ batch_download_sites demo_sched demo_net 1024 (demo None)
    = (Raise (UnboundLocalError "num"), demo None)
  ∧ pending (demo None) ≠ [].
Proof.
  split; [by apply download_all_sites_unbound_num|].
  split; [by apply batch_unbound_num|done].
Qed.

(** ** Construction *)

(** The world as the constructor leaves it before it reconciles: the data
    directory and the log file exist. *)
Definition prepared (local_output_path : string) (w : World) : World :=
  let data_path := Text.join local_output_path ["data"] in
  let w :=
    if decide (data_path ∈ dirs w) then w
    else set_dirs ({[ data_path ]} ∪ dirs w)
           (add_event (LogInfo ("Output folder is not exist, create folder: "
                                +:+ data_path)) w) in
  match log w with
  | Some _ => w
  | None => set_log (Some EmptyString) (add_event (LogInfo "Creating log_file") w)
  end.

Lemma log_prepared lop w : log (prepared lop w) = Some (default EmptyString (log w)).
Proof.
  unfold prepared. case_decide; destruct (log w) eqn:Hlog; simpl; by rewrite ?Hlog.
Qed.

Definition named_paths (local_output_path : string) (names : list string)
  : list string :=
  (λ name, Text.join local_output_path ["data"; name]) <$> names.

Section ConstructionFacts.

Variables urlparse_path urlparse_netloc : string → string.
Variable set_to_list : list string → list string.

Variables (url_list0 : list string) (lop : string)
  (threads tol stop time_limit : Z) (headers : gmap string string)
  (verb : bool)
  (saver : option (string → Response → gmap string (list Byte.byte)
                   → gmap string (list Byte.byte)))
  (w : World).

Let init (output_name_list : option (list string)) :=
  __init__ urlparse_path urlparse_netloc set_to_list url_list0 lop
    threads tol stop time_limit headers output_name_list verb saver w.

Let logged : gmultiset string :=
  list_to_set_disj (downloaded_urls (default EmptyString (log w))).

(** The two ways the constructor ends. *)
Lemma init_raises names :
  names ≠ [] → length url_list0 ≠ length names →
  init (Some names) = (Raise AssertionError, w).
Proof.
  intros Hnames Hlen. unfold init, __init__.
  destruct names as [|name names]; [done|]. simpl.
  by rewrite decide_False.
Qed.

Lemma init_named names :
  names ≠ [] → length url_list0 = length names →
  ∃ this,
    init (Some names) = (Ok this, prepared lop w)
    ∧ url_list this
      = (reconcile logged (zip url_list0 (named_paths lop names))).*1
    ∧ output_path_list this
      = (reconcile logged (zip url_list0 (named_paths lop names))).*2.
Proof.
  intros Hnames Hlen. unfold init, __init__.
  destruct names as [|name names]; [done|]. cbn [truthy default].
  rewrite decide_True by done. cbn iota beta zeta.
  fold (prepared lop w).
  erewrite update_downloading_status_run by apply log_prepared.
  eexists. split; [reflexivity|]. done.
Qed.

Lemma init_unnamed names :
  truthy names = false →
  ∃ this,
    init names = (Ok this, prepared lop w)
    ∧ url_list this
      = (reconcile logged
           (zip (set_to_list url_list0)
                (get_outpath_from_url urlparse_path urlparse_netloc lop
                   <$> set_to_list url_list0))).*1
    ∧ output_path_list this
      = (reconcile logged
           (zip (set_to_list url_list0)
                (get_outpath_from_url urlparse_path urlparse_netloc lop
                   <$> set_to_list url_list0))).*2.
Proof.
  intros Hfalsy. unfold init, __init__. rewrite Hfalsy. cbn iota beta zeta.
  fold (prepared lop w).
  erewrite update_downloading_status_run by apply log_prepared.
  eexists. split; [reflexivity|]. done.
Qed.

End ConstructionFacts.

(** A stand-in for [urlparse] on URLs of the shape [http://host/path], for
    the examples. *)
Fixpoint from_slash (s : string) : string :=
  match s with
  | EmptyString => EmptyString
  | String c rest => if Ascii.eqb c "/"%char then s else from_slash rest
  end.

Fixpoint upto_slash (s : string) : string :=
  match s with
  | EmptyString => EmptyString
  | String c rest =>
      if Ascii.eqb c "/"%char then EmptyString else String c (upto_slash rest)
  end.

Definition strip_scheme (url : string) : string :=
  if String.prefix "http://" url
  then String.substring 7 (String.length url - 7) url
  else url.

Definition demo_urlparse_path (url : string) : string :=
  from_slash (strip_scheme url).
Definition demo_urlparse_netloc (url : string) : string :=
  upto_slash (strip_scheme url).

Lemma reconcile_empty (targets : list target) : reconcile ∅ targets = targets.
Proof.
  apply reconcile_none. intros t _. apply multiplicity_empty.
Qed.

Lemma downloaded_urls_empty : downloaded_urls EmptyString = [].
Proof. reflexivity. Qed.

(** C9, as the claim states it, fails: an output-name list that is given
    but empty, with one URL, raises nothing; an object is made. *)
Lemma C9_empty_name_list_raises_nothing :
  ∃ this w',
    __init__ demo_urlparse_path demo_urlparse_netloc remove_dups
      ["http://x/a.jpg"] "out" 4 1000 0 600 ∅ (Some []) true None (demo_world None)
    = (Ok this, w')
    ∧ length ["http://x/a.jpg"] ≠ length (@nil string)
    ∧ url_list this = ["http://x/a.jpg"]
    ∧ output_path_list this = ["out/data/a.jpg"].
Proof. eexists _, _. split; [vm_compute; reflexivity|]. by repeat split. Qed.

(** C9, amended.  When the output-name list that is given is not empty and
    its length is not that of the URL list, the constructor raises
    [AssertionError], makes no object and leaves the world as it was.  When
    the lengths are equal the [i]-th URL is paired with the path of the
    [i]-th name, no URL is dropped for occurring twice, and the object is
    made with what the reconciliation against the log leaves of these
    pairs: all of them, in their order, when the log has no record. *)
Theorem C9_mismatched_name_list_is_an_error
    (urlparse_path urlparse_netloc : string → string)
    (set_to_list : list string → list string)
    (urls : list string) (lop : string) (threads tol stop time_limit : Z)
    (headers : gmap string string) (names : list string) (verb : bool)
    (saver : option (string → Response → gmap string (list Byte.byte)
                     → gmap string (list Byte.byte)))
    (w : World) :
  names ≠ [] →
  (length urls ≠ length names →
   __init__ urlparse_path urlparse_netloc set_to_list urls lop threads tol stop
     time_limit headers (Some names) verb saver w
   = (Raise AssertionError, w))
  ∧ (length urls = length names →
     ∃ this w',
       __init__ urlparse_path urlparse_netloc set_to_list urls lop threads tol
         stop time_limit headers (Some names) verb saver w
       = (Ok this, w')
       ∧ zip (url_list this) (output_path_list this)
         = reconcile
             (list_to_set_disj (downloaded_urls (default EmptyString (log w))))
             (zip urls (named_paths lop names))
       ∧ (default EmptyString (log w) = EmptyString →
          url_list this = urls
          ∧ output_path_list this = named_paths lop names)).
Proof.
  intros Hnames. split; intros Hlen.
  - by apply init_raises.
  - destruct (init_named urlparse_path urlparse_netloc set_to_list urls lop
                threads tol stop time_limit headers verb saver w names Hnames Hlen)
      as (this & Hrun & Hurls & Hpaths).
    exists this, (prepared lop w). split; [done|].
    rewrite Hurls, Hpaths. split; [apply zip_fst_snd|].
    intros Hempty. rewrite Hempty, downloaded_urls_empty. simpl.
    rewrite reconcile_empty. unfold named_paths.
    rewrite fst_zip, snd_zip by (rewrite length_fmap; lia). done.
Qed.

Lemma C9_witness :
  (__init__ demo_urlparse_path demo_urlparse_netloc remove_dups
     ["http://x/a.jpg"; "http://x/a.jpg"] "out" 4 1000 0 600 ∅
     (Some ["1"]) true None (demo_world None)
   = (Raise AssertionError, demo_world None))
  ∧ ∃ this w',
      __init__ demo_urlparse_path demo_urlparse_netloc remove_dups
        ["http://x/a.jpg"; "http://x/a.jpg"] "out" 4 1000 0 600 ∅
        (Some ["1"; "2"]) true None (demo_world None)
      = (Ok this, w')
      ∧ url_list this = ["http://x/a.jpg"; "http://x/a.jpg"]
      ∧ output_path_list this = ["out/data/1"; "out/data/2"].
Proof.
  split.
  - apply (C9_mismatched_name_list_is_an_error demo_urlparse_path demo_urlparse_netloc
             remove_dups ["http://x/a.jpg"; "http://x/a.jpg"] "out" 4 1000 0 600
             ∅ ["1"] true None (demo_world None)); [discriminate|].
    simpl. lia.
  - destruct (proj2 (C9_mismatched_name_list_is_an_error demo_urlparse_path
             demo_urlparse_netloc remove_dups ["http://x/a.jpg"; "http://x/a.jpg"] "out"
             4 1000 0 600 ∅ ["1"; "2"] true None (demo_world None)
             ltac:(discriminate)) eq_refl)
      as (this & w' & Hrun & _ & Hfresh).
    exists this, w'. split; [exact Hrun|]. apply Hfresh. reflexivity.
Defined.

Lemma zip_fmap_paired {A B} (f : A → B) (l : list A) :
  Forall (λ t : A * B, t.2 = f t.1) (zip l (f <$> l)).
Proof. induction l as [|a l IH]; simpl; by constructor. Qed.

Lemma paired_snd {A B} (f : A → B) (l : list (A * B)) :
  Forall (λ t : A * B, t.2 = f t.1) l → l.*2 = f <$> l.*1.
Proof. induction 1 as [|t l Ht _ IH]; simpl; [done|]. by f_equal. Qed.

(** C10. An output-name list that is given but empty is treated in every
    respect as no list: the constructor does the same as for [None].  It
    raises nothing, whatever the length of the URL list; the URLs of the
    object are free of duplicates and are URLs that were given, all of
    them when the log has no record; and every output path is the path
    derived from its URL. *)
Theorem C10_empty_name_list_is_no_name_list
    (urlparse_path urlparse_netloc : string → string)
    (set_to_list : list string → list string)
    (urls : list string) (lop : string) (threads tol stop time_limit : Z)
    (headers : gmap string string) (verb : bool)
    (saver : option (string → Response → gmap string (list Byte.byte)
                     → gmap string (list Byte.byte)))
    (w : World) :
  (∀ l, NoDup (set_to_list l)) →
  (∀ l x, x ∈ set_to_list l ↔ x ∈ l) →
  __init__ urlparse_path urlparse_netloc set_to_list urls lop threads tol stop
    time_limit headers (Some []) verb saver w
  = __init__ urlparse_path urlparse_netloc set_to_list urls lop threads tol stop
      time_limit headers None verb saver w
  ∧ ∃ this w',
      __init__ urlparse_path urlparse_netloc set_to_list urls lop threads tol
        stop time_limit headers (Some []) verb saver w
      = (Ok this, w')
      ∧ NoDup (url_list this)
      ∧ (∀ u, u ∈ url_list this → u ∈ urls)
      ∧ output_path_list this
        = get_outpath_from_url urlparse_path urlparse_netloc lop <$> url_list this
      ∧ (default EmptyString (log w) = EmptyString →
         ∀ u, u ∈ url_list this ↔ u ∈ urls).
Proof.
  intros Hnodup Helem. split; [reflexivity|].
  destruct (init_unnamed urlparse_path urlparse_netloc set_to_list urls lop
              threads tol stop time_limit headers verb saver w (Some []) eq_refl)
    as (this & Hrun & Hurls & Hpaths).
  exists this, (prepared lop w). split; [done|].
  set (f := get_outpath_from_url urlparse_path urlparse_netloc lop) in *.
  set (X := list_to_set_disj (downloaded_urls (default EmptyString (log w)))) in *.
  pose proof (reconcile_sublist X (zip (set_to_list urls) (f <$> set_to_list urls)))
    as Hsub.
  assert ((zip (set_to_list urls) (f <$> set_to_list urls)).*1 = set_to_list urls)
    as Hfst by (apply fst_zip; by rewrite length_fmap).
  assert (url_list this `sublist_of` set_to_list urls) as Hsub1.
  { rewrite Hurls. pose proof (fmap_sublist fst _ _ Hsub) as Hsub1.
    by rewrite Hfst in Hsub1. }
  split; [by eapply sublist_NoDup|].
  split; [intros u Hu; apply (Helem urls), (elem_of_sublist _ _ _ Hu Hsub1)|].
  split.
  - rewrite Hurls, Hpaths. apply paired_snd.
    eapply Forall_forall. intros t Ht.
    eapply (proj1 (Forall_forall _ _) (zip_fmap_paired f (set_to_list urls))).
    by eapply elem_of_sublist.
  - intros Hempty u. rewrite Hurls. unfold X.
    rewrite Hempty, downloaded_urls_empty. simpl.
    rewrite reconcile_empty, Hfst. apply Helem.
Qed.

Lemma C10_witness :
  __init__ demo_urlparse_path demo_urlparse_netloc remove_dups
    ["http://x/a.jpg"; "http://x/a.jpg"] "out" 4 1000 0 600 ∅ (Some []) true None
    (demo_world None)
  = __init__ demo_urlparse_path demo_urlparse_netloc remove_dups
      ["http://x/a.jpg"; "http://x/a.jpg"] "out" 4 1000 0 600 ∅ None true None
      (demo_world None)
  ∧ ∃ this w',
      __init__ demo_urlparse_path demo_urlparse_netloc remove_dups
        ["http://x/a.jpg"; "http://x/a.jpg"] "out" 4 1000 0 600 ∅ (Some []) true
        None (demo_world None)
      = (Ok this, w')
      ∧ NoDup (url_list this)
      ∧ (∀ u, u ∈ url_list this → u ∈ ["http://x/a.jpg"; "http://x/a.jpg"])
      ∧ output_path_list this
        = get_outpath_from_url demo_urlparse_path demo_urlparse_netloc "out" <$> url_list this
      ∧ (default EmptyString (log (demo_world None)) = EmptyString →
         ∀ u, u ∈ url_list this ↔ u ∈ ["http://x/a.jpg"; "http://x/a.jpg"]).
Proof.
  apply (C10_empty_name_list_is_no_name_list demo_urlparse_path demo_urlparse_netloc
           remove_dups ["http://x/a.jpg"; "http://x/a.jpg"] "out" 4 1000 0 600 ∅
           true None (demo_world None)).
  - apply NoDup_remove_dups.
  - apply elem_of_remove_dups.
Defined.

(** ** Reading back what a batch has logged *)

(** A URL can be logged and read back when it has no tab and no line end in
    it and does not contain the marker text. *)
Definition plain (c : ascii) : bool :=
  negb (Ascii.eqb c Text.TAB) && negb (Ascii.eqb c Text.LF)
  && negb (Ascii.eqb c Text.CR).

Fixpoint all_plain (s : string) : bool :=
  match s with
  | EmptyString => true
  | String c s' => plain c && all_plain s'
  end.

Definition loggable (url : string) : bool :=
  all_plain url && negb (Text.contains "batch above" url).

Fixpoint no_newline (s : string) : bool :=
  match s with
  | EmptyString => true
  | String c s' =>
      negb (Ascii.eqb c Text.LF) && negb (Ascii.eqb c Text.CR) && no_newline s'
  end.

Fixpoint no_tab (s : string) : bool :=
  match s with
  | EmptyString => true
  | String c s' => negb (Ascii.eqb c Text.TAB) && no_tab s'
  end.

(** A log text that does not end in the middle of a line. *)
Definition complete (text : string) : Prop :=
  text = EmptyString ∨ ∃ pre, text = pre +:+ Text.nl.

Lemma string_app_nil_l (b : string) : EmptyString +:+ b = b.
Proof. reflexivity. Qed.

Lemma string_app_cons (x : ascii) (a b : string) :
  String x a +:+ b = String x (a +:+ b).
Proof. reflexivity. Qed.

Ltac str_simpl :=
  unfold Text.nl, Text.tab; rewrite ?string_app_cons, ?string_app_nil_l.

Lemma string_app_assoc (a b c : string) : (a +:+ b) +:+ c = a +:+ (b +:+ c).
Proof. induction a as [|x a IH]; str_simpl; [done|]. by f_equal. Qed.

Lemma split_tab_head_app (u rest : string) :
  all_plain u = true → Text.split_tab_head (u +:+ String Text.TAB rest) = u.
Proof.
  induction u as [|c u IH]; str_simpl; simpl; [done|].
  unfold plain. intros Hplain.
  destruct (Ascii.eqb c Text.TAB); [done|]. simpl in Hplain.
  rewrite IH; [done|]. by destruct (Ascii.eqb c Text.LF), (Ascii.eqb c Text.CR).
Qed.

Lemma readlines_from_line (l : string) : ∀ cur rest,
  no_newline l = true →
  Text.readlines_from cur (l +:+ String Text.LF rest)
  = (cur +:+ l +:+ Text.nl) :: Text.readlines_from EmptyString rest.
Proof.
  induction l as [|c l IH]; intros cur rest Hl; str_simpl; simpl.
  - done.
  - simpl in Hl.
    destruct (Ascii.eqb c Text.LF); [done|].
    destruct (Ascii.eqb c Text.CR); [done|]. simpl in Hl.
    rewrite IH by done. str_simpl. by rewrite string_app_assoc.
Qed.

Lemma readlines_from_closed (n : nat) : ∀ pre cur rest,
  (String.length pre ≤ n)%nat →
  Text.readlines_from cur ((pre +:+ Text.nl) +:+ rest)
  = Text.readlines_from cur (pre +:+ Text.nl)
    ++ Text.readlines_from EmptyString rest.
Proof.
  induction n as [|n IH]; intros pre cur rest Hlen.
  - destruct pre; [done|simpl in Hlen; lia].
  - destruct pre as [|c pre]; [done|]. simpl in Hlen.
    rewrite !string_app_cons. simpl.
    destruct (Ascii.eqb c Text.LF); [by rewrite IH by lia|].
    destruct (Ascii.eqb c Text.CR); [|by rewrite IH by lia].
    destruct pre as [|c' pre]; [done|]. simpl in Hlen.
    rewrite !string_app_cons.
    destruct (Ascii.eqb c' Text.LF).
    + by rewrite IH by lia.
    + rewrite <- !string_app_cons. by rewrite IH by (simpl; lia).
Qed.

Lemma readlines_complete (old rest : string) :
  complete old →
  Text.readlines (old +:+ rest) = Text.readlines old ++ Text.readlines rest.
Proof.
  intros [->|[pre ->]]; [done|].
  by apply (readlines_from_closed (String.length pre)).
Qed.

Lemma downloaded_urls_app (old rest : string) :
  complete old →
  downloaded_urls (old +:+ rest) = downloaded_urls old ++ downloaded_urls rest.
Proof.
  intros Hold. unfold downloaded_urls.
  by rewrite readlines_complete, filter_app, fmap_app.
Qed.

(** A text without tab is not found across a tab. *)
Lemma prefix_before_tab (needle : string) : ∀ v rest,
  no_tab needle = true →
  String.prefix needle (v +:+ String Text.TAB rest) = String.prefix needle v.
Proof.
  induction needle as [|a needle IH]; intros v rest Hneedle; [by destruct v|].
  simpl in Hneedle. apply andb_true_iff in Hneedle as [Ha Hneedle].
  destruct v as [|b v]; str_simpl; simpl.
  - destruct (ascii_dec a Text.TAB) as [->|]; [done|done].
  - destruct (ascii_dec a b); [by apply IH|done].
Qed.

Lemma contains_before_tab (needle : string) (v rest : string) :
  no_tab needle = true → needle ≠ EmptyString →
  Text.contains needle (v +:+ String Text.TAB rest)
  = Text.contains needle v || Text.contains needle (String Text.TAB rest).
Proof.
  intros Hneedle Hne. induction v as [|c v IH].
  - destruct needle; [done|]. reflexivity.
  - rewrite string_app_cons. cbn [Text.contains].
    rewrite <- (string_app_cons c v (String Text.TAB rest)).
    rewrite prefix_before_tab by done. rewrite IH. by rewrite orb_assoc.
Qed.

(** A record of a loggable URL is read back as that URL. *)
Lemma downloaded_urls_record (url status rest : string) :
  loggable url = true →
  status = "o" ∨ status = "x" →
  downloaded_urls (log_record url status +:+ rest) = url :: downloaded_urls rest.
Proof.
  unfold loggable. intros [Hplain Hmark]%andb_true_iff Hstatus.
  apply negb_true_iff in Hmark.
  assert (no_newline (url +:+ Text.tab +:+ status) = true) as Hline.
  { clear Hmark. induction url as [|c url IH]; str_simpl.
    - by destruct Hstatus as [->| ->].
    - simpl in *. unfold plain in Hplain.
      destruct (Ascii.eqb c Text.TAB), (Ascii.eqb c Text.LF),
        (Ascii.eqb c Text.CR); try done. apply IH in Hplain.
      revert Hplain. by str_simpl. }
  unfold downloaded_urls, Text.readlines, log_record.
  replace ((url +:+ Text.tab +:+ status +:+ Text.nl) +:+ rest)
    with ((url +:+ Text.tab +:+ status) +:+ String Text.LF rest)
    by (by rewrite !string_app_assoc).
  rewrite readlines_from_line by done.
  rewrite string_app_nil_l, filter_cons_True.
  - rewrite fmap_cons. f_equal.
    rewrite !string_app_assoc. by apply split_tab_head_app.
  - cbv beta. rewrite !string_app_assoc.
    change (Text.tab +:+ ?x) with (String Text.TAB x).
    rewrite contains_before_tab, Hmark by done.
    by destruct Hstatus as [->| ->].
Qed.

Lemma downloaded_urls_batch net (calls : list target) : ∀ i,
  Forall (λ url, loggable url = true) (calls.*1) →
  first_failure net i calls = None →
  downloaded_urls (foldr String.append EmptyString (batch_records net i calls))
  = calls.*1.
Proof.
  induction calls as [|[url outpath] rest IH]; intros i Hurls Hnone; [done|].
  simpl in *. apply Forall_cons in Hurls as [Hurl Hurls].
  destruct (net i) as [r|]; [|done]. simpl.
  rewrite downloaded_urls_record; [by rewrite IH|done|].
  unfold mark. destruct (ok r); auto.
Qed.

(** ** The loop with [batch_size = -1] *)

Lemma reconcile_all X (targets : list target) :
  list_to_set_disj (targets.*1) ⊆ X → reconcile X targets = [].
Proof.
  revert X. induction targets as [|t rest IH]; intros X Hsub; [done|].
  rewrite fmap_cons, list_to_set_disj_cons in Hsub. simpl.
  rewrite decide_True.
  - apply IH. multiset_solver.
  - apply elem_of_multiplicity. multiset_solver.
Qed.

(** A batch of everything pending, whose GETs all respond, whose URLs can
    be read back from the log, on a log that does not end in the middle of
    a line: nothing is pending afterwards, successes and failures alike. *)
Lemma batch_everything sched net s :
  0 < num_thread (self s) →
  first_failure net 0 (pending s) = None →
  Forall (λ url, loggable url = true) ((pending s).*1) →
  complete (default EmptyString (log (world s))) →
  ∃ s',
    batch_download_sites sched net (-1) s = (Ok tt, s')
    ∧ url_list (self s') = []
    ∧ pending s' = []
    ∧ log (world s')
      = Some (default EmptyString (log (world s)) +:+ batch_text net s).
Proof.
  intros Hthreads Hnone Hurls Hold.
  pose proof (batch_run sched net s Hthreads) as Hbatch.
  rewrite Hnone in Hbatch.
  destruct Hbatch as (s' & msgs & Hrun & Hlog & _ & Hpending & Hlist).
  assert (pending s' = []) as Hdone.
  { rewrite Hpending. apply reconcile_all.
    rewrite downloaded_urls_app by done. unfold batch_text.
    rewrite downloaded_urls_batch, list_to_set_disj_app by done.
    multiset_solver. }
  exists s'. split; [done|]. rewrite Hlist, Hdone. done.
Qed.

(** With [batch_size = -1] the loop of [download_all_sites] does what the
    claim C2 says: it ends, after one batch, with nothing pending. *)
Lemma download_all_sites_everything fuel pools s :
  0 < num_thread (self s) →
  first_failure (pools 0%nat).2 0 (pending s) = None →
  Forall (λ url, loggable url = true) ((pending s).*1) →
  complete (default EmptyString (log (world s))) →
  ∃ s',
    download_all_sites (S (S fuel)) pools (-1) s = Some (Ok tt, s')
    ∧ url_list (self s') = []
    ∧ pending s' = [].
Proof.
  intros Hthreads Hnone Hurls Hold.
  cbn [download_all_sites]. case_decide as Hpending.
  - destruct (batch_everything (pools 0%nat).1 (pools 0%nat).2 s)
      as (s' & Hrun & Hlist & Hdone & _); try done.
    rewrite Hrun, Hlist. simpl. eauto.
  - exists s. destruct (url_list (self s)) eqn:Hlist; [|simpl in *; lia].
    unfold pending. rewrite Hlist. done.
Qed.

(** * Further properties of the methods *)

(** ** What every method leaves alone *)

(** [m] keeps [P]: when the object satisfies [P] before [m] runs, it does
    so afterwards, whether [m] returns or raises. *)
Definition keeps {A} (P : URLDownloader_v2 → Prop) (m : M A) : Prop :=
  ∀ s, P (self s) → P (self (m s).2).

(** The two ways the methods write to the object. *)
Definition lawful (P : URLDownloader_v2 → Prop) : Prop :=
  (∀ n x, P x → P (set_url_cnter n x))
  ∧ (∀ (l : list target) x, P x → P (set_lists (l.*1) (l.*2) x)).

Lemma keeps_ret {A} P (a : A) : keeps P (mret a).
Proof. by intros s. Qed.

Lemma keeps_raise {A} P e : keeps P (@raise A e).
Proof. by intros s. Qed.

Lemma keeps_bind {A B} P (m : M A) (f : A → M B) :
  keeps P m → (∀ a, keeps P (f a)) → keeps P (m ≫= f).
Proof.
  intros Hm Hf s HP. specialize (Hm s HP). unfold mbind, M_bind.
  destruct (m s) as [[a|e] s']; simpl in *; [by apply Hf|done].
Qed.

Lemma keeps_get_self P : keeps P get_self.
Proof. by intros s. Qed.

Lemma keeps_get_world P : keeps P get_world.
Proof. by intros s. Qed.

Lemma keeps_modify_world P f : keeps P (modify_world f).
Proof. by intros s. Qed.

Lemma keeps_modify_self P f : (∀ x, P x → P (f x)) → keeps P (modify_self f).
Proof. intros Hf s HP. by apply Hf. Qed.

Lemma keeps_capture {A} P (m : M A) : keeps P m → keeps P (capture m).
Proof.
  intros Hm s HP. specialize (Hm s HP). unfold capture.
  by destruct (m s).
Qed.

Ltac keeps_step :=
  first
    [ apply keeps_ret | apply keeps_raise | apply keeps_get_self
    | apply keeps_get_world | apply keeps_modify_world
    | apply keeps_bind; [|intros ?]
    | match goal with
      | |- keeps _ (match ?x with _ => _ end) => destruct x
      end ].

Lemma keeps_print_all P lines : keeps P (print_all lines).
Proof.
  induction lines as [|l lines IH]; simpl; [apply keeps_ret|].
  apply keeps_bind; [apply keeps_modify_world|done].
Qed.

Lemma keeps_append_log P lines : keeps P (append_log lines).
Proof. apply keeps_modify_world. Qed.

Lemma keeps_update_downloading_status P :
  lawful P → keeps P update_downloading_status.
Proof.
  intros [_ Hlists]. unfold update_downloading_status.
  repeat keeps_step. apply keeps_modify_self. intros x. apply Hlists.
Qed.

Lemma keeps_get_num_urls_needed P : lawful P → keeps P get_num_urls_needed.
Proof.
  intros HP. unfold get_num_urls_needed.
  apply keeps_bind; [by apply keeps_update_downloading_status|intros ?].
  repeat keeps_step.
Qed.

Lemma keeps_download_site P thread got url outpath log_flag :
  lawful P → keeps P (download_site thread got url outpath log_flag).
Proof.
  intros [Hcnt _]. unfold download_site, emit,
    set_to_zero_thread_local_err_cntr, increment_thread_local_err_cntr,
    get_thread_local_err_cntr.
  repeat first
    [ apply keeps_print_all | apply keeps_append_log
    | apply keeps_modify_self; intros x; apply Hcnt
    | keeps_step ].
Qed.

Lemma keeps_pool_map P sched net calls : ∀ i,
  lawful P → keeps P (pool_map sched net i calls).
Proof.
  induction calls as [|[url outpath] rest IH]; intros i HP; simpl;
    [apply keeps_ret|].
  apply keeps_bind; [apply keeps_get_self|intros self0].
  apply keeps_bind; [by apply keeps_capture, keeps_download_site|intros ?].
  apply keeps_bind; [by apply IH|intros ?]. apply keeps_ret.
Qed.

Lemma keeps_results_list {A} P (results : list (Outcome A)) :
  keeps P (results_list results).
Proof.
  induction results as [|[a|e] rest IH]; simpl;
    [apply keeps_ret| |apply keeps_raise].
  apply keeps_bind; [done|intros ?; apply keeps_ret].
Qed.

Lemma keeps_batch_download_sites P sched net batch_size :
  lawful P → keeps P (batch_download_sites sched net batch_size).
Proof.
  intros HP. unfold batch_download_sites, emit.
  repeat first
    [ by apply keeps_update_downloading_status
    | by apply keeps_pool_map
    | apply keeps_results_list | apply keeps_print_all
    | apply keeps_append_log
    | keeps_step ].
Qed.

Lemma keeps_download_all_sites P batch_size : ∀ fuel pools s o s',
  lawful P →
  download_all_sites fuel pools batch_size s = Some (o, s') →
  P (self s) → P (self s').
Proof.
  induction fuel as [|fuel IH]; intros pools s o s' HP Hrun Hs; [done|].
  cbn [download_all_sites] in Hrun. case_decide; [|by simplify_eq].
  pose proof (keeps_batch_download_sites P (pools 0%nat).1 (pools 0%nat).2
                batch_size HP s Hs) as Hbatch.
  destruct (batch_download_sites _ _ _ s) as [[[]|e] s1]; simpl in Hbatch.
  - by eapply IH.
  - by simplify_eq.
Qed.

(** The two parallel lists stay in step, so that [zip] pairs every pending
    URL with its own path and drops none. *)
Definition in_step (x : URLDownloader_v2) : Prop :=
  length (url_list x) = length (output_path_list x).

Lemma lawful_in_step : lawful in_step.
Proof.
  split; [done|]. intros l x _. unfold in_step. simpl.
  by rewrite !length_fmap.
Qed.

(** The fields that are set at construction and are not written again. *)
Definition config (x : URLDownloader_v2) :=
  (local_output_path x, num_thread x, err_tolerance_num x, stop_interval x,
   timeout x, http_headers x, verbose x, custom_img_saver x, err_cnter x,
   log_file x).

Lemma lawful_config c : lawful (λ x, config x = c).
Proof. by split. Qed.


Section ConstructionProperties.

Variables urlparse_path urlparse_netloc : string → string.
Variable set_to_list : list string → list string.
Variables (urls : list string) (lop : string)
  (threads tol stop time_limit : Z) (headers : gmap string string)
  (names : option (list string)) (verb : bool)
  (saver : option (string → Response → gmap string (list Byte.byte)
                   → gmap string (list Byte.byte)))
  (w : World).

Let made :=
  __init__ urlparse_path urlparse_netloc set_to_list urls lop threads tol stop
    time_limit headers names verb saver w.



End ConstructionProperties.

(** X2. No method moves the two lists of the object out of step:
    [download_site], [batch_download_sites], [update_downloading_status],
    [get_num_urls_needed] and [download_all_sites] keep the lengths of
    [url_list] and [output_path_list] equal, whether they return or raise,
    and [update_downloading_status] makes them equal whatever they were. *)
Theorem X2_lists_stay_in_step (s : St) (thread : nat) (got : GetResult)
    (url outpath : string) (log_flag : bool) (sched : nat → nat)
    (net : nat → GetResult) (batch_size : Z) (fuel : nat)
    (pools : nat → (nat → nat) * (nat → GetResult)) :
  (in_step (self s) →
   in_step (self (download_site thread got url outpath log_flag s).2)
   ∧ in_step (self (batch_download_sites sched net batch_size s).2)
   ∧ in_step (self (get_num_urls_needed s).2)
   ∧ ∀ o s', download_all_sites fuel pools batch_size s = Some (o, s') →
             in_step (self s'))
  ∧ (∀ text, log (world s) = Some text →
             in_step (self (update_downloading_status s).2)).
Proof.
  split.
  - intros Hs. pose proof lawful_in_step as HP.
    split; [by apply (keeps_download_site _ _ _ _ _ _ HP)|].
    split; [by apply (keeps_batch_download_sites _ _ _ _ HP)|].
    split; [by apply (keeps_get_num_urls_needed _ HP)|].
    intros o s' Hrun.
    by apply (keeps_download_all_sites _ _ _ _ _ _ _ HP Hrun).
  - intros text Hlog. rewrite (update_downloading_status_run s text Hlog).
    unfold in_step. simpl. by rewrite !length_fmap.
Qed.

(** X3. No method writes to the configuration of the object: the output
    path, the number of threads, the tolerance, the cooldown, the time
    limit, the headers, the verbosity, the saver, [err_cnter] and the path
    of the log are after every method, returning or raising, what they
    were before. *)
Theorem X3_configuration_is_never_written (s : St) (thread : nat)
    (got : GetResult) (url outpath : string) (log_flag : bool)
    (sched : nat → nat) (net : nat → GetResult) (batch_size : Z) (fuel : nat)
    (pools : nat → (nat → nat) * (nat → GetResult)) :
  config (self (download_site thread got url outpath log_flag s).2)
  = config (self s)
  ∧ config (self (batch_download_sites sched net batch_size s).2)
    = config (self s)
  ∧ config (self (update_downloading_status s).2) = config (self s)
  ∧ config (self (get_num_urls_needed s).2) = config (self s)
  ∧ ∀ o s', download_all_sites fuel pools batch_size s = Some (o, s') →
            config (self s') = config (self s).
Proof.
  pose proof (lawful_config (config (self s))) as HP.
  split; [by apply (keeps_download_site _ _ _ _ _ _ HP)|].
  split; [by apply (keeps_batch_download_sites _ _ _ _ HP)|].
  split; [by apply (keeps_update_downloading_status _ HP)|].
  split; [by apply (keeps_get_num_urls_needed _ HP)|].
  intros o s' Hrun.
  by apply (keeps_download_all_sites _ _ _ _ _ _ _ HP Hrun).
Qed.

Lemma X3_witness :
  ∃ o s',
    download_all_sites 3 (λ _, (demo_sched, demo_net)) (-1) (demo None)
    = Some (o, s')
    ∧ config (self s') = config (self (demo None)).
Proof.
  destruct (download_all_sites 3 (λ _, (demo_sched, demo_net)) (-1) (demo None))
    as [[o s']|] eqn:Hrun; [|by vm_compute in Hrun].
  exists o, s'. split; [reflexivity|].
  apply (proj2 (proj2 (proj2 (proj2
           (X3_configuration_is_never_written (demo None) 1 (demo_net 0%nat)
              "http://x/a.jpg" "out/data/1" true demo_sched demo_net (-1) 3
              (λ _, (demo_sched, demo_net)))))) o s').
  exact Hrun.
Defined.

Lemma X2_witness :
  in_step (self (download_site 1 (demo_net 0%nat) "http://x/a.jpg"
                   "out/data/1" true (demo None)).2)
  ∧ in_step (self (batch_download_sites demo_sched demo_net (-1) (demo None)).2)
  ∧ in_step (self (update_downloading_status (demo (Some one_ok))).2).
Proof.
  destruct (X2_lists_stay_in_step (demo None) 1 (demo_net 0%nat)
              "http://x/a.jpg" "out/data/1" true demo_sched demo_net (-1) 2
              (λ _, (demo_sched, demo_net))) as [Hkeep _].
  destruct (Hkeep eq_refl) as (Hsite & Hbatch & _).
  split; [exact Hsite|]. split; [exact Hbatch|].
  apply (proj2 (X2_lists_stay_in_step (demo (Some one_ok)) 1 (demo_net 0%nat)
                  "http://x/a.jpg" "out/data/1" true demo_sched demo_net (-1) 2
                  (λ _, (demo_sched, demo_net))) one_ok).
  reflexivity.
Defined.

(** ** Counting what stays pending *)

(** X4. For every URL, [update_downloading_status] leaves as many pending
    targets with that URL as there were, less the number of log records
    for the URL, and none when the records are more; and
    [get_num_urls_needed] reconciles in the same way and returns the number
    of targets then pending.  When the log has no record beyond the pending
    targets, that number is the number of targets less the number of
    records. *)
Theorem X4_pending_count (s : St) (text : string) :
  log (world s) = Some text →
  ∃ s',
    update_downloading_status s = (Ok tt, s')
    ∧ get_num_urls_needed s = (Ok (Z.of_nat (length (pending s'))), s')
    ∧ (∀ u, length (filter (λ t : target, t.1 = u) (pending s'))
            = (length (filter (λ t : target, t.1 = u) (pending s))
               - length (filter (λ r, r = u) (downloaded_urls text)))%nat)
    ∧ (downloaded_urls text ⊆+ (pending s).*1 →
       Z.of_nat (length (pending s'))
       = Z.of_nat (length (pending s)) - Z.of_nat (length (downloaded_urls text))).
Proof.
  intros Hlog. eexists. split; [by apply update_downloading_status_run|].
  rewrite pending_with_pending. split; [|split].
  - unfold get_num_urls_needed.
    erewrite bind_ok by (by apply update_downloading_status_run).
    erewrite bind_ok by reflexivity. simpl. by rewrite length_fmap.
  - intros u.
    by rewrite reconcile_filter_url, length_drop, multiplicity_list_to_set_disj.
  - intros [k Hk]%submseteq_Permutation.
    pose proof (reconcile_length
                  (list_to_set_disj (downloaded_urls text)) (pending s)) as Hlen.
    rewrite Hk, list_to_set_disj_app in Hlen.
    assert (size (list_to_set_disj (downloaded_urls text) : gmultiset string)
            = length (downloaded_urls text)) as Hsize.
    { clear. induction (downloaded_urls text) as [|r l IH]; simpl.
      - apply (gmultiset_size_empty (A := string)).
      - by rewrite gmultiset_size_disj_union, gmultiset_size_singleton, IH. }
    rewrite Hsize in Hlen. specialize (Hlen ltac:(multiset_solver)). lia.
Qed.

Lemma X4_witness :
  ∃ s',
    update_downloading_status (demo (Some one_ok)) = (Ok tt, s')
    ∧ get_num_urls_needed (demo (Some one_ok)) = (Ok 2, s')
    ∧ length (filter (λ t : target, t.1 = "http://x/a.jpg") (pending s')) = 1%nat.
Proof.
  destruct (X4_pending_count (demo (Some one_ok)) one_ok eq_refl)
    as (s' & Hrun & Hnum & Hper & Htotal).
  exists s'. split; [exact Hrun|].
  assert (Z.of_nat (length (pending s')) = 2) as Hlen.
  { rewrite Htotal; [reflexivity|]. vm_compute.
    apply submseteq_skip, submseteq_nil_l. }
  split; [by rewrite Hnum, Hlen|].
  rewrite (Hper "http://x/a.jpg"). reflexivity.
Defined.

(** ** URLs the log cannot hold *)

Lemma prefix_app_r (needle a b : string) :
  String.prefix needle a = true → String.prefix needle (a +:+ b) = true.
Proof.
  revert a. induction needle as [|c needle IH]; intros a Ha;
    [by destruct (a +:+ b)|].
  destruct a as [|x a]; [done|]. rewrite string_app_cons. simpl in *.
  destruct (ascii_dec c x); [by apply IH|done].
Qed.

Lemma contains_app_r (needle a b : string) :
  Text.contains needle a = true → Text.contains needle (a +:+ b) = true.
Proof.
  induction a as [|x a IH]; intros Ha.
  - destruct needle; [by destruct b|done].
  - rewrite string_app_cons. cbn [Text.contains] in Ha |- *.
    apply orb_true_iff in Ha as [Ha|Ha]; apply orb_true_iff.
    + left. rewrite <- string_app_cons. by apply prefix_app_r.
    + right. by apply IH.
Qed.

Lemma split_tab_head_prefix (line : string) :
  ∃ rest, line = Text.split_tab_head line +:+ rest.
Proof.
  induction line as [|c line [rest IH]]; [by exists EmptyString|].
  simpl. destruct (Ascii.eqb c Text.TAB).
  - by exists (String c line).
  - exists rest. rewrite string_app_cons. by f_equal.
Qed.

(** What is read from the log as a URL never contains the marker text. *)
Lemma downloaded_urls_unmarked (text u : string) :
  u ∈ downloaded_urls text → Text.contains "batch above" u = false.
Proof.
  unfold downloaded_urls.
  intros (line & -> & [Hline _]%list_elem_of_filter)%list_elem_of_fmap.
  destruct (Text.contains "batch above" (Text.split_tab_head line)) eqn:Hu;
    [|done].
  destruct (split_tab_head_prefix line) as [rest Hrest].
  rewrite Hrest, (contains_app_r _ _ rest Hu) in Hline. done.
Qed.

Lemma multiplicity_not_elem_of (u : string) (l : list string) :
  u ∉ l → multiplicity u (list_to_set_disj l : gmultiset string) = 0%nat.
Proof.
  intros Hu. rewrite multiplicity_list_to_set_disj.
  induction l as [|r l IH]; [done|].
  apply not_elem_of_cons in Hu as [Hne Hu].
  rewrite filter_cons_False by done. by apply IH.
Qed.

(** X5. A target whose URL contains the text [batch above] is pending for
    good: whatever the log holds, also a record written for this very URL,
    [update_downloading_status] keeps every target of that URL. *)
Theorem X5_marked_url_stays_pending (s : St) (text u : string) :
  log (world s) = Some text →
  Text.contains "batch above" u = true →
  ∃ s',
    update_downloading_status s = (Ok tt, s')
    ∧ filter (λ t : target, t.1 = u) (pending s')
      = filter (λ t : target, t.1 = u) (pending s)
    ∧ ∀ path, (u, path) ∈ pending s → (u, path) ∈ pending s'.
Proof.
  intros Hlog Hu.
  eexists. split; [by apply update_downloading_status_run|].
  rewrite pending_with_pending.
  assert (filter (λ t : target, t.1 = u)
            (reconcile (list_to_set_disj (downloaded_urls text)) (pending s))
          = filter (λ t : target, t.1 = u) (pending s)) as Hsame.
  { rewrite reconcile_filter_url, multiplicity_not_elem_of; [done|].
    intros Hin%downloaded_urls_unmarked. congruence. }
  split; [done|]. intros path Hin.
  apply (list_elem_of_filter (λ t : target, t.1 = u) _ (u, path)).
  rewrite Hsame. by apply list_elem_of_filter.
Qed.

Definition marked_url : string := "http://x/batch above.jpg".

Definition marked : St :=
  {| self := set_lists [marked_url] ["out/data/1"] demo_self;
     world := demo_world (Some (log_record marked_url "o")) |}.

Lemma X5_witness :
  ∃ s',
    update_downloading_status marked = (Ok tt, s')
    ∧ filter (λ t : target, t.1 = marked_url) (pending s')
      = filter (λ t : target, t.1 = marked_url) (pending marked)
    ∧ ∀ path, (marked_url, path) ∈ pending marked →
              (marked_url, path) ∈ pending s'.
Proof.
  apply (X5_marked_url_stays_pending marked (log_record marked_url "o")
           marked_url); reflexivity.
Defined.




(** ** Coming back to a folder *)



(** ** Writing the log and reading it back *)





(** ** How often the breaker trips *)





(** ** What a batch leaves behind, returning or raising *)





(** ** The data files *)










(** * The other methods of [URLDownloader_v1] *)

Module V1m.

Import V1.

(** The double quote of the message of the constructor. *)
Definition quote : string := String "034"%char EmptyString.

(** A [dict] as the list of its items in insertion order: assigning to a
    key that is there replaces its value where it stands. *)
Fixpoint dict_set (k v : string) (d : list (string * string))
  : list (string * string) :=
  match d with
  | [] => [(k, v)]
  | (k', v') :: rest =>
      if decide (k = k') then (k, v) :: rest else (k', v') :: dict_set k v rest
  end.

(** [{url: oname for url, oname in pairs}] *)
Definition dict_of (pairs : list (string * string)) : list (string * string) :=
  foldl (λ d p, dict_set p.1 p.2 d) [] pairs.

(** [[line.split('\t')[0] for line in f]] *)
Definition downloaded_urls (log_text : string) : list string :=
  Text.split_tab_head <$> Text.readlines log_text.

Definition set_lists (urls paths : list string) (self : URLDownloader_v1)
  : URLDownloader_v1 :=
  {| url_list := urls;
     out_path := out_path self;
     outpath_list := paths;
     num_thread := num_thread self;
     err_tolerance_num := err_tolerance_num self;
     stop_interval := stop_interval self;
     time_out_for_GET := time_out_for_GET self;
     http_headers := http_headers self;
     verbose := verbose self;
     err_cnter := err_cnter self;
     url_cnter := url_cnter self;
     log_file := log_file self |}.

Definition update_downloading_status (self : URLDownloader_v1) (w : World)
  : Outcome unit * URLDownloader_v1 * World :=
  match log w with
  | None => (Raise (FileNotFoundError (log_file self)), self, w)
  | Some text =>
      let downloaded_url := Counter.of_list (downloaded_urls text) in
      let tmp :=
        status_loop downloaded_url (zip (url_list self) (outpath_list self)) in
      (Ok tt, set_lists (tmp.*1) (tmp.*2) self, w)
  end.

Definition get_num_urls_needed (self : URLDownloader_v1) (w : World)
  : Outcome Z * URLDownloader_v1 * World :=
  match update_downloading_status self w with
  | (Ok _, self, w) => (Ok (Z.of_nat (length (url_list self))), self, w)
  | (Raise e, self, w) => (Raise e, self, w)
  end.

Section Construction.

Variables urlparse_path urlparse_netloc : string → string.
Variable set_to_list : list string → list string.

Definition get_outpath_from_url (out_path url : string) : string :=
  let fname :=
    if decide (Text.basename (urlparse_path url) = EmptyString)
    then urlparse_netloc url
    else Text.basename (urlparse_path url) in
  Text.join out_path [fname].

Definition __init__ (url_list : list string) (out_path : string)
    (num_thread err_tolerance_num stop_interval time_out_for_GET : Z)
    (http_headers : gmap string string) (remove_dup_img : bool)
    (outname_list : option (list string)) (verbose : bool) (w : World)
  : Outcome URLDownloader_v1 * World :=
  let lists : Outcome (list string * option (list string)) :=
    if truthy outname_list then
      let names := default [] outname_list in
      if decide (length url_list = length names) then
        let url2oname := dict_of (zip url_list names) in
        Ok (url2oname.*1, Some (url2oname.*2))
      else Raise AssertionError
    else Ok (set_to_list url_list, outname_list) in
  match lists with
  | Raise e => (Raise e, w)
  | Ok (url_list, outname_list) =>
      let outpath_list :=
        if truthy outname_list
        then (λ name, Text.join out_path [name]) <$> default [] outname_list
        else get_outpath_from_url out_path <$> url_list in
      let this :=
        {| url_list := url_list;
           out_path := out_path;
           outpath_list := outpath_list;
           num_thread := num_thread;
           err_tolerance_num := err_tolerance_num;
           stop_interval := stop_interval;
           time_out_for_GET := time_out_for_GET;
           http_headers := http_headers;
           verbose := verbose;
           err_cnter := 0;
           url_cnter := 0;
           log_file := Text.join out_path ["downloaded.log"] |} in
      let w :=
        if decide (out_path ∈ dirs w) then w
        else set_dirs ({[ out_path ]} ∪ dirs w)
               (add_event (Stdout ("output folder is not exist, create "
                                   +:+ quote +:+ out_path +:+ quote
                                   +:+ " folder")) w) in
      let w :=
        match log w with
        | Some _ => w
        | None => set_log (Some EmptyString) w
        end in
      match update_downloading_status this w with
      | (Ok _, this, w) => (Ok this, w)
      | (Raise e, _, w) => (Raise e, w)
      end
  end.

End Construction.

(** The calls of a pool of [URLDownloader_v1], one after the other; the
    iterator of [executor.map] is not read, so an exception of a call stays
    in its future. *)
Fixpoint pool_run (sched : nat → nat) (net : nat → GetResult) (i : nat)
    (calls : list target) (self : URLDownloader_v1) (w : World)
  : URLDownloader_v1 * World :=
  match calls with
  | [] => (self, w)
  | (url, outpath) :: rest =>
      let '(_, self, w) :=
        download_site self w (S (sched i `mod` Z.to_nat (num_thread self)))
          (net i) url outpath in
      pool_run sched net (S i) rest self w
  end.

Definition download_all_sites (sched : nat → nat) (net : nat → GetResult)
    (self : URLDownloader_v1) (w : World)
  : Outcome unit * URLDownloader_v1 * World :=
  if decide (num_thread self ≤ 0)
  then (Raise (ValueError "max_workers must be greater than 0"), self, w)
  else
    let '(self, w) :=
      pool_run sched net 0 (zip (url_list self) (outpath_list self)) self w in
    (Ok tt, self, w).

Definition batch_download_sites (sched : nat → nat) (net : nat → GetResult)
    (num : Z) (self : URLDownloader_v1) (w : World)
  : Outcome unit * URLDownloader_v1 * World :=
  let w := add_event
             (Stdout ("# files to download: "
                      +:+ pretty (length (slice_to (url_list self) num)))) w in
  if decide (num_thread self ≤ 0)
  then (Raise (ValueError "max_workers must be greater than 0"), self, w)
  else
    let '(self, w) :=
      pool_run sched net 0
        (zip (slice_to (url_list self) num) (slice_to (outpath_list self) num))
        self w in
    update_downloading_status self w.

(** The calls of one thread, in a row. *)
Fixpoint run (thread : nat) (calls : list (GetResult * string * string))
    (self : URLDownloader_v1) (w : World) : URLDownloader_v1 * World :=
  match calls with
  | [] => (self, w)
  | (got, url, outpath) :: rest =>
      let '(_, self, w) := download_site self w thread got url outpath in
      run thread rest self w
  end.

End V1m.

(** ** The dictionary of the constructor *)

Lemma dict_set_keys (k v : string) (d : list (string * string)) :
  (V1m.dict_set k v d).*1 = if decide (k ∈ d.*1) then d.*1 else d.*1 ++ [k].
Proof.
  induction d as [|[k' v'] d IH]; [done|].
  cbn [V1m.dict_set]. destruct (decide (k = k')) as [->|Hne].
  - rewrite fmap_cons. cbn [fst]. rewrite decide_True; [done|]. rewrite fmap_cons. by left.
  - rewrite !fmap_cons, IH. cbn [fst].
    destruct (decide (k ∈ d.*1)) as [Hin|Hout].
    + rewrite decide_True; [done|by right].
    + rewrite decide_False; [done|]. by intros [?|?]%elem_of_cons.
Qed.

Lemma dict_set_NoDup (k v : string) (d : list (string * string)) :
  NoDup (d.*1) → NoDup ((V1m.dict_set k v d).*1).
Proof.
  intros Hnd. rewrite dict_set_keys. case_decide; [done|].
  apply NoDup_app. split; [done|]. split; [|apply NoDup_singleton].
  by intros x Hx ->%list_elem_of_singleton.
Qed.

Lemma dict_set_elem (k v k0 v0 : string) (d : list (string * string)) :
  NoDup (d.*1) →
  (k0, v0) ∈ V1m.dict_set k v d →
  (k0 = k ∧ v0 = v) ∨ (k0 ≠ k ∧ (k0, v0) ∈ d).
Proof.
  induction d as [|[k' v'] d IH]; simpl; intros Hnd.
  - intros [= -> ->]%list_elem_of_singleton. by left.
  - apply NoDup_cons in Hnd as [Hfresh Hnd]. case_decide as Hk.
    + subst k'. intros [[= -> ->]|Hin]%elem_of_cons; [by left|].
      right. split; [|by right].
      intros ->. apply Hfresh, list_elem_of_fmap. by exists (k, v0).
    + intros [[= -> ->]|Hin]%elem_of_cons.
      * right. split; [done|]. by left.
      * destruct (IH Hnd Hin) as [?|[? ?]]; [by left|].
        right. split; [done|]. by right.
Qed.

Lemma dict_of_snoc (pairs : list (string * string)) (p : string * string) :
  V1m.dict_of (pairs ++ [p]) = V1m.dict_set p.1 p.2 (V1m.dict_of pairs).
Proof. unfold V1m.dict_of. by rewrite foldl_app. Qed.

Lemma dict_of_NoDup (pairs : list (string * string)) :
  NoDup ((V1m.dict_of pairs).*1).
Proof.
  induction pairs as [|p pairs IH] using rev_ind; [constructor|].
  rewrite dict_of_snoc. by apply dict_set_NoDup.
Qed.

Lemma dict_of_keys (pairs : list (string * string)) (k : string) :
  k ∈ (V1m.dict_of pairs).*1 ↔ k ∈ pairs.*1.
Proof.
  induction pairs as [|p pairs IH] using rev_ind; [done|].
  rewrite dict_of_snoc, dict_set_keys, fmap_app, elem_of_app. simpl.
  case_decide as Hin; rewrite ?elem_of_app, IH, ?list_elem_of_singleton.
  - split; [tauto|]. intros [?| ->]; [done|]. by apply IH.
  - done.
Qed.

(** The value of a key of the dictionary is the one of its last item. *)
Lemma dict_of_last (pairs : list (string * string)) (k v : string) :
  (k, v) ∈ V1m.dict_of pairs →
  ∃ pre post, pairs = pre ++ (k, v) :: post ∧ k ∉ post.*1.
Proof.
  induction pairs as [|[k' v'] pairs IH] using rev_ind.
  - by intros ?%elem_of_nil.
  - rewrite dict_of_snoc. simpl. intros Hset.
    apply dict_set_elem in Hset as [[-> ->]|[Hne Hin]]; [| |apply dict_of_NoDup].
    + exists pairs, []. split; [done|]. apply not_elem_of_nil.
    + destruct (IH Hin) as (pre & post & -> & Hpost).
      exists pre, (post ++ [(k', v')]). split; [by rewrite <- app_assoc|].
      rewrite fmap_app. simpl.
      intros [?| ?%list_elem_of_singleton]%elem_of_app; done.
Qed.

Lemma zip_fmap_snd {A B C} (f : B → C) (d : list (A * B)) :
  zip (d.*1) (f <$> d.*2) = (λ kv, (kv.1, f kv.2)) <$> d.
Proof. induction d as [|[a b] d IH]; simpl; [done|]. by f_equal. Qed.

(** ** [URLDownloader_v1]: construction and reconciliation *)

Lemma v1_update_run (self : V1.URLDownloader_v1) (w : World) (text : string) :
  log w = Some text →
  V1m.update_downloading_status self w
  = (Ok tt,
     V1m.set_lists
       ((reconcile (list_to_set_disj (V1m.downloaded_urls text))
           (zip (V1.url_list self) (V1.outpath_list self))).*1)
       ((reconcile (list_to_set_disj (V1m.downloaded_urls text))
           (zip (V1.url_list self) (V1.outpath_list self))).*2)
       self, w).
Proof.
  intros Hlog. unfold V1m.update_downloading_status. rewrite Hlog.
  by rewrite status_loop_reconcile.
Qed.

Definition v1_prepared (out_path : string) (w : World) : World :=
  let w :=
    if decide (out_path ∈ dirs w) then w
    else set_dirs ({[ out_path ]} ∪ dirs w)
           (add_event (Stdout ("output folder is not exist, create "
                               +:+ V1m.quote +:+ out_path +:+ V1m.quote
                               +:+ " folder")) w) in
  match log w with
  | Some _ => w
  | None => set_log (Some EmptyString) w
  end.

Lemma log_v1_prepared out_path w :
  log (v1_prepared out_path w) = Some (default EmptyString (log w)).
Proof.
  unfold v1_prepared. case_decide; destruct (log w) eqn:Hlog; simpl;
    by rewrite ?Hlog.
Qed.

(** The targets of a constructor with names: the items of the dictionary,
    each name made a path. *)
Definition v1_named_targets (out_path : string) (urls names : list string)
  : list target :=
  (λ kv, (kv.1, Text.join out_path [kv.2])) <$> V1m.dict_of (zip urls names).

Section V1Construction.

Variables urlparse_path urlparse_netloc : string → string.
Variable set_to_list : list string → list string.
Variables (urls : list string) (out_path : string)
  (threads tol stop time_limit : Z) (headers : gmap string string)
  (remove_dup_img verb : bool) (w : World).

Let made (names : option (list string)) :=
  V1m.__init__ urlparse_path urlparse_netloc set_to_list urls out_path
    threads tol stop time_limit headers remove_dup_img names verb w.

Let logged : gmultiset string :=
  list_to_set_disj (V1m.downloaded_urls (default EmptyString (log w))).

Lemma v1_init_named names :
  names ≠ [] → length urls = length names →
  ∃ this,
    made (Some names) = (Ok this, v1_prepared out_path w)
    ∧ V1.url_list this
      = (reconcile logged (v1_named_targets out_path urls names)).*1
    ∧ V1.outpath_list this
      = (reconcile logged (v1_named_targets out_path urls names)).*2.
Proof.
  intros Hnames Hlen. unfold made, V1m.__init__.
  destruct names as [|name names]; [done|]. cbn [truthy default from_option id].
  rewrite decide_True by done. cbn iota beta zeta.
  destruct urls as [|url urls']; [done|].
  assert (truthy (Some ((V1m.dict_of (zip (url :: urls') (name :: names))).*2))
          = true) as ->.
  { pose proof (proj2 (dict_of_keys (zip (url :: urls') (name :: names)) url)
                  ltac:(by left)) as Hin.
    destruct (V1m.dict_of _) as [|kv d]; [by apply elem_of_nil in Hin|done]. }
  cbn [default from_option id]. fold (v1_prepared out_path w).
  erewrite v1_update_run by apply log_v1_prepared.
  cbn [V1.url_list V1.outpath_list]. rewrite zip_fmap_snd.
  eexists. split; [reflexivity|]. done.
Qed.

Lemma v1_init_unnamed names :
  truthy names = false →
  ∃ this,
    made names = (Ok this, v1_prepared out_path w)
    ∧ V1.url_list this
      = (reconcile logged
           (zip (set_to_list urls)
                (V1m.get_outpath_from_url urlparse_path urlparse_netloc out_path
                   <$> set_to_list urls))).*1
    ∧ V1.outpath_list this
      = (reconcile logged
           (zip (set_to_list urls)
                (V1m.get_outpath_from_url urlparse_path urlparse_netloc out_path
                   <$> set_to_list urls))).*2.
Proof.
  intros Hfalsy. unfold made, V1m.__init__. rewrite Hfalsy.
  cbn iota beta zeta. rewrite Hfalsy. fold (v1_prepared out_path w).
  erewrite v1_update_run by apply log_v1_prepared.
  eexists. split; [reflexivity|]. done.
Qed.

End V1Construction.

Lemma v1_init_mismatch
    (urlparse_path urlparse_netloc : string → string)
    (set_to_list : list string → list string)
    (urls : list string) (out_path : string) (threads tol stop time_limit : Z)
    (headers : gmap string string) (remove_dup_img verb : bool) (w : World)
    (names : list string) :
  names ≠ [] → length urls ≠ length names →
  V1m.__init__ urlparse_path urlparse_netloc set_to_list urls out_path
    threads tol stop time_limit headers remove_dup_img (Some names) verb w
  = (Raise AssertionError, w).
Proof.
  intros Hnames Hlen. unfold V1m.__init__.
  destruct names as [|name names]; [done|]. cbn [truthy default from_option id].
  by rewrite decide_False.
Qed.

Lemma v1_named_targets_keys out_path urls names :
  (v1_named_targets out_path urls names).*1 = (V1m.dict_of (zip urls names)).*1.
Proof.
  unfold v1_named_targets. rewrite <- list_fmap_compose. done.
Qed.

(** X14. The constructor of [URLDownloader_v1] with a list of names of the
    right length keeps every URL once: the URLs of the object are pairwise
    different, and each is paired with the path of the name that was given
    last for it.  When the log has no record the URLs of the object are
    the URLs given. *)
Theorem X14_v1_names_keep_each_url_once
    (urlparse_path urlparse_netloc : string → string)
    (set_to_list : list string → list string)
    (urls : list string) (out_path : string) (threads tol stop time_limit : Z)
    (headers : gmap string string) (remove_dup_img verb : bool) (w : World)
    (names : list string) :
  names ≠ [] →
  length urls = length names →
  ∃ this w',
    V1m.__init__ urlparse_path urlparse_netloc set_to_list urls out_path
      threads tol stop time_limit headers remove_dup_img (Some names) verb w
    = (Ok this, w')
    ∧ NoDup (V1.url_list this)
    ∧ length (V1.url_list this) = length (V1.outpath_list this)
    ∧ (∀ u p, (u, p) ∈ zip (V1.url_list this) (V1.outpath_list this) →
         ∃ name pre post,
           zip urls names = pre ++ (u, name) :: post
           ∧ (u ∉ post.*1)
           ∧ p = Text.join out_path [name])
    ∧ (default EmptyString (log w) = EmptyString →
       ∀ u, u ∈ V1.url_list this ↔ u ∈ urls).
Proof.
  intros Hnames Hlen.
  destruct (v1_init_named urlparse_path urlparse_netloc set_to_list urls
              out_path threads tol stop time_limit headers remove_dup_img verb w
              names Hnames Hlen) as (this & Hrun & Hurls & Hpaths).
  exists this, (v1_prepared out_path w). split; [done|].
  set (X := list_to_set_disj
              (V1m.downloaded_urls (default EmptyString (log w)))) in *.
  pose proof (reconcile_sublist X (v1_named_targets out_path urls names)) as Hsub.
  split; [|split; [|split]].
  - rewrite Hurls. eapply sublist_NoDup; [|by apply fmap_sublist].
    rewrite v1_named_targets_keys. apply dict_of_NoDup.
  - by rewrite Hurls, Hpaths, !length_fmap.
  - intros u p Hin. rewrite Hurls, Hpaths, zip_fst_snd in Hin.
    apply (elem_of_sublist _ _ _ Hin) in Hsub.
    unfold v1_named_targets in Hsub.
    apply list_elem_of_fmap in Hsub as ([k v] & [= -> ->] & Hkv).
    destruct (dict_of_last _ _ _ Hkv) as (pre & post & Hsplit & Hpost).
    by exists v, pre, post.
  - intros Hempty u. rewrite Hurls. unfold X. rewrite Hempty.
    change (V1m.downloaded_urls EmptyString) with (@nil string). simpl.
    rewrite reconcile_empty, v1_named_targets_keys, dict_of_keys.
    by rewrite fst_zip by lia.
Qed.

Lemma X14_witness :
  ∃ this w',
    V1m.__init__ demo_urlparse_path demo_urlparse_netloc remove_dups
      ["http://x/a.jpg"; "http://x/b.jpg"; "http://x/a.jpg"] "out" 4 1000 0 600 ∅
      false (Some ["1"; "2"; "3"]) true (demo_world None)
    = (Ok this, w')
    ∧ V1.url_list this = ["http://x/a.jpg"; "http://x/b.jpg"]
    ∧ V1.outpath_list this = ["out/3"; "out/2"].
Proof.
  destruct (X14_v1_names_keep_each_url_once demo_urlparse_path
              demo_urlparse_netloc remove_dups
              ["http://x/a.jpg"; "http://x/b.jpg"; "http://x/a.jpg"] "out"
              4 1000 0 600 ∅ false true (demo_world None) ["1"; "2"; "3"])
    as (this & w' & Hrun & _); [discriminate|reflexivity|].
  exists this, w'. split; [exact Hrun|].
  vm_compute in Hrun. by injection Hrun as <- _.
Defined.

(** X15. An object that the constructor of [URLDownloader_v1] has made has
    pairwise different URLs, with names or without, and reconciling it
    again against the log it was made with changes nothing:
    [update_downloading_status] gives back the same object, and
    [get_num_urls_needed] the number of its URLs. *)
Theorem X15_v1_reconciling_again_changes_nothing
    (urlparse_path urlparse_netloc : string → string)
    (set_to_list : list string → list string)
    (urls : list string) (out_path : string) (threads tol stop time_limit : Z)
    (headers : gmap string string) (remove_dup_img verb : bool) (w : World)
    (names : option (list string)) (this : V1.URLDownloader_v1) (w' : World) :
  (∀ l, NoDup (set_to_list l)) →
  V1m.__init__ urlparse_path urlparse_netloc set_to_list urls out_path
    threads tol stop time_limit headers remove_dup_img names verb w
  = (Ok this, w') →
  NoDup (V1.url_list this)
  ∧ V1m.update_downloading_status this w' = (Ok tt, this, w')
  ∧ V1m.get_num_urls_needed this w'
    = (Ok (Z.of_nat (length (V1.url_list this))), this, w').
Proof.
  intros Hnodup Hmade.
  assert (∃ T : list target,
            NoDup (T.*1)
            ∧ w' = v1_prepared out_path w
            ∧ V1.url_list this
              = (reconcile (list_to_set_disj (V1m.downloaded_urls
                                (default EmptyString (log w)))) T).*1
            ∧ V1.outpath_list this
              = (reconcile (list_to_set_disj (V1m.downloaded_urls
                                (default EmptyString (log w)))) T).*2)
    as (T & HT & -> & Hurls & Hpaths).
  { destruct (truthy names) eqn:Htruthy.
    - destruct names as [[|name rest]|]; try done.
      destruct (decide (length urls = length (name :: rest))) as [Hlen|Hlen].
      + destruct (v1_init_named urlparse_path urlparse_netloc set_to_list urls
                    out_path threads tol stop time_limit headers remove_dup_img
                    verb w (name :: rest)) as (this' & Hrun & Hl & Hp);
          try done.
        rewrite Hrun in Hmade. injection Hmade as -> <-.
        eexists. split; [|done].
        rewrite v1_named_targets_keys. apply dict_of_NoDup.
      + rewrite v1_init_mismatch in Hmade by done. discriminate.
    - destruct (v1_init_unnamed urlparse_path urlparse_netloc set_to_list urls
                  out_path threads tol stop time_limit headers remove_dup_img
                  verb w names Htruthy) as (this' & Hrun & Hl & Hp).
      rewrite Hrun in Hmade. injection Hmade as -> <-.
      eexists. split; [|done]. by rewrite fst_zip by (by rewrite length_fmap). }
  set (X := list_to_set_disj
              (V1m.downloaded_urls (default EmptyString (log w)))) in *.
  assert (V1m.update_downloading_status this (v1_prepared out_path w)
          = (Ok tt, this, v1_prepared out_path w)) as Hsame.
  { erewrite v1_update_run by apply log_v1_prepared. fold X.
    rewrite Hurls, Hpaths, zip_fst_snd.
    pose proof (reconcile_again_NoDup X T 1 HT) as Hagain.
    simpl in Hagain. rewrite Hagain.
    destruct this. simpl in *. by subst. }
  split; [|split; [done|]].
  - rewrite Hurls. eapply sublist_NoDup; [done|].
    apply fmap_sublist, reconcile_sublist.
  - unfold V1m.get_num_urls_needed. by rewrite Hsame.
Qed.

Definition v1_demo_made : Outcome V1.URLDownloader_v1 * World :=
  V1m.__init__ demo_urlparse_path demo_urlparse_netloc remove_dups
    ["http://x/a.jpg"; "http://x/b.jpg"; "http://x/a.jpg"] "out" 4 1000 0 600 ∅
    false None true
    (demo_world (Some ("http://x/b.jpg" +:+ "	out/b.jpg	o
"))).

Lemma X15_witness :
  ∃ this w',
    v1_demo_made = (Ok this, w')
    ∧ V1.url_list this = ["http://x/a.jpg"]
    ∧ V1m.update_downloading_status this w' = (Ok tt, this, w').
Proof.
  destruct v1_demo_made as [[this| ] w'] eqn:Hmade; [|by vm_compute in Hmade].
  exists this, w'. split; [done|]. split.
  - vm_compute in Hmade. by injection Hmade as <- _.
  - eapply (X15_v1_reconciling_again_changes_nothing demo_urlparse_path
              demo_urlparse_netloc remove_dups); [|exact Hmade].
    intros l. apply NoDup_remove_dups.
Defined.

(** ** The calls of [URLDownloader_v1] *)














(** ** The log of [URLDownloader_v1], read back *)















